(** * MailShield analysis server ([src/server.js]): a shallow embedding

    The server is a single Express handler, [POST /api/analyze], built from
    five helpers: [filterGrammarIssues], [heuristicLinkCheck],
    [googleSafeBrowsingLookup], [languageToolCheck] and the inline
    phishing-phrase matcher.  The handler receives whatever JSON the client
    sent, and the two wrappers receive whatever the remote services answered,
    so the embedding is dynamically typed: every JavaScript value the program
    can meet is a [value], a method call on a value of the wrong kind throws,
    and the handler's outer [try]/[catch] turns a throw into a 500 answer.

    Conventions.
    - A JavaScript string is a [string]; each [ascii] is one UTF-16 code unit
      in the range 0..255 (Latin-1).  [toLowerCase] and [trim] are exact on
      that range.
    - A JavaScript number is kept as its canonical rendering
      (Number::toString), which identifies it up to the sign of zero; the
      program never computes with a number it received.
    - An object is the list of its own properties.  The program only reads
      property names that are absent from every prototype, so a missing own
      property reads as [Undefined].
    - The text of the messages of engine exceptions is not fixed by the
      source; the strings carried by [TypeError] only name the failing call. *)

From Stdlib Require Import String Ascii List Bool Arith NArith ZArith Lia DecimalString.
Import ListNotations.

Local Open Scope string_scope.
Local Open Scope list_scope.

(** ** Strings *)

Module JsString.

(** The double-quote character, U+0022. *)
Definition dquote : string := String (ascii_of_nat 34) EmptyString.

(** [String.prototype.toLowerCase] on one Latin-1 code unit: A-Z, and the
    accented capitals U+00C0..U+00DE except U+00D7, move up by 32. *)
Definition lower_char (c : ascii) : ascii :=
  let n := N_of_ascii c in
  if (((65 <=? n) && (n <=? 90))
      || ((192 <=? n) && (n <=? 214))
      || ((216 <=? n) && (n <=? 222)))%N
  then ascii_of_N (n + 32) else c.

Fixpoint toLowerCase (s : string) : string :=
  match s with
  | EmptyString => EmptyString
  | String c s' => String (lower_char c) (toLowerCase s')
  end.

(** [s.startsWith(t)] *)
Definition startsWith (s t : string) : bool := String.prefix t s.

(** [s.includes(t)]: [t] starts at some position of [s]. *)
Fixpoint includes (s t : string) : bool :=
  if startsWith s t then true
  else match s with
       | EmptyString => false
       | String _ s' => includes s' t
       end.

(** [s.endsWith(t)]: some suffix of [s] is [t]. *)
Fixpoint endsWith (s t : string) : bool :=
  if String.eqb s t then true
  else match s with
       | EmptyString => false
       | String _ s' => endsWith s' t
       end.

(** White space and line terminators of ECMAScript below U+0100:
    TAB, LF, VT, FF, CR, SP and NBSP. *)
Definition is_space (c : ascii) : bool :=
  let n := N_of_ascii c in
  (((9 <=? n) && (n <=? 13)) || (n =? 32) || (n =? 160))%N.

Fixpoint trimStart (s : string) : string :=
  match s with
  | EmptyString => EmptyString
  | String c s' => if is_space c then trimStart s' else s
  end.

(** Drops the trailing white space: a character stays when it is not a
    space or when something stays after it. *)
Fixpoint trimEnd (s : string) : string :=
  match s with
  | EmptyString => EmptyString
  | String c s' =>
      match trimEnd s' with
      | EmptyString => if is_space c then EmptyString else String c EmptyString
      | r => String c r
      end
  end.

(** [String.prototype.trim] *)
Definition trim (s : string) : string := trimEnd (trimStart s).

(** [s.slice(0, n)] for [0 <= n]. *)
Fixpoint slice0 (n : nat) (s : string) : string :=
  match n, s with
  | S n', String c s' => String c (slice0 n' s')
  | _, _ => EmptyString
  end.

(** [Array.prototype.join] on an array of strings. *)
Fixpoint join (sep : string) (l : list string) : string :=
  match l with
  | [] => EmptyString
  | [x] => x
  | x :: xs => x ++ sep ++ join sep xs
  end.

End JsString.
Import JsString.

(** ** Values, exceptions *)

#[warnings="-register-all"]
Inductive value : Type :=
| Undefined
| Null
| Bool (b : bool)
| Num (repr : string)
| Str (s : string)
| Arr (elems : list value)
| Obj (props : list (string * value)).

Inductive Exn : Type :=
| TypeError (msg : string).

(** The completion of an evaluation: a value or a throw. *)
Inductive Outcome (A : Type) : Type :=
| Returned (a : A)
| Thrown (e : Exn).
Arguments Returned {A} a.
Arguments Thrown {A} e.

Definition obind {A B} (m : Outcome A) (f : A -> Outcome B) : Outcome B :=
  match m with
  | Returned a => f a
  | Thrown e => Thrown e
  end.

Declare Scope outcome_scope.
Delimit Scope outcome_scope with outcome.
Notation "x <- m ;; k" := (obind m (fun x => k))
  (at level 61, m at next level, right associativity) : outcome_scope.
Local Open Scope outcome_scope.

(** ToBoolean *)
Definition truthy (v : value) : bool :=
  match v with
  | Undefined | Null => false
  | Bool b => b
  | Num r => negb (String.eqb r "0" || String.eqb r "NaN")
  | Str s => negb (String.eqb s "")
  | Arr _ | Obj _ => true
  end.

(** [a || b] *)
Definition or_else (a b : value) : value := if truthy a then a else b.

Fixpoint assoc (k : string) (props : list (string * value)) : option value :=
  match props with
  | [] => None
  | (k', v) :: rest => if String.eqb k k' then Some v else assoc k rest
  end.

(** [v.k] for a [v] that is neither [null] nor [undefined]. *)
Definition prop (v : value) (k : string) : value :=
  match v with
  | Obj props => match assoc k props with Some x => x | None => Undefined end
  | _ => Undefined
  end.

(** [v.k] in general: reading a property of [null] or [undefined] throws. *)
Definition get (v : value) (k : string) : Outcome value :=
  match v with
  | Undefined | Null => Thrown (TypeError ("Cannot read properties of null or undefined: " ++ k)%string)
  | _ => Returned (prop v k)
  end.

(** ** [heuristicLinkCheck] *)

Definition suspiciousTokens : list string :=
  ["verify"; "login"; "confirm"; "secure"; "account";
   "update"; "reset"; "bank"; "paypal"; "signin";
   "claim"; "won"; "congrats"].

Definition oddTlds : list string :=
  [".ru"; ".cn"; ".tk"; ".ml"; ".ga"; ".cf"; ".gq"].

Definition contains_reason (tok : string) : string :=
  "contains " ++ dquote ++ tok ++ dquote.

Definition punycode_reason : string := "punycode / idn suspicious".

Definition tld_reason (t : string) : string := "tld " ++ t.

(** [v.toLowerCase()] *)
Definition call_toLowerCase (v : value) : Outcome string :=
  match v with
  | Str s => Returned (toLowerCase s)
  | _ => Thrown (TypeError "toLowerCase is not a function")
  end.

(** The body of [heuristicLinkCheck] once [lower] is known: the three
    [push] sequences, in program order. *)
Definition heuristicReasons (lower : string) : list string :=
  flat_map (fun tok => if includes lower tok then [contains_reason tok] else [])
           suspiciousTokens
  ++ (if includes lower "xn--" then [punycode_reason] else [])
  ++ flat_map (fun t => if endsWith lower t then [tld_reason t] else []) oddTlds.

Definition heuristicLinkCheck (url : value) : Outcome (list string) :=
  lower <- call_toLowerCase (or_else url (Str "")) ;;
  Returned (heuristicReasons lower).

(** ** Conversions to string *)

(** ToString, and ToPrimitive followed by ToString (the two agree on every
    value that JSON can carry).  An array renders as its elements joined by
    commas, [null] and [undefined] elements as nothing.  A plain object
    renders as [[object Object]] through [Object.prototype.toString]; when it
    has an own property [toString], that property is not callable and the
    conversion throws. *)
Fixpoint to_string (v : value) : Outcome string :=
  match v with
  | Undefined => Returned "undefined"
  | Null => Returned "null"
  | Bool true => Returned "true"
  | Bool false => Returned "false"
  | Num r => Returned r
  | Str s => Returned s
  | Arr elems =>
      parts <- (fix each (l : list value) : Outcome (list string) :=
                  match l with
                  | [] => Returned []
                  | x :: xs =>
                      s <- match x with
                           | Undefined | Null => Returned ""
                           | _ => to_string x
                           end ;;
                      r <- each xs ;;
                      Returned (s :: r)
                  end) elems ;;
      Returned (join "," parts)
  | Obj props =>
      match assoc "toString" props with
      | Some _ => Thrown (TypeError "Cannot convert object to primitive value")
      | None => Returned "[object Object]"
      end
  end.

(** [Number::toString] of an array index. *)
Definition index_key (n : nat) : string :=
  DecimalString.NilEmpty.string_of_uint (Nat.to_uint n).

(** ** [filterGrammarIssues] *)

(** [v.trim()] *)
Definition call_trim (v : value) : Outcome string :=
  match v with
  | Str s => Returned (trim s)
  | _ => Thrown (TypeError "trim is not a function")
  end.

(** [v.filter(...)] needs an array. *)
Definition as_array (v : value) : Outcome (list value) :=
  match v with
  | Arr l => Returned l
  | _ => Thrown (TypeError "filter is not a function")
  end.

(** [l.filter(p)] for a callback [p] that may throw: the callback runs on
    the elements from left to right and the first throw ends the call. *)
Fixpoint filterM {A} (p : A -> Outcome bool) (l : list A) : Outcome (list A) :=
  match l with
  | [] => Returned []
  | x :: xs =>
      b <- p x ;;
      r <- filterM p xs ;;
      Returned (if b then x :: r else r)
  end.

(** [i => i.severity === 'error'] *)
Definition is_error (i : value) : Outcome bool :=
  sev <- get i "severity" ;;
  Returned (match sev with Str s => String.eqb s "error" | _ => false end).

(** [i => i.f && i.f.trim().length > n] *)
Definition long_field (f : string) (n : nat) (i : value) : Outcome bool :=
  x <- get i f ;;
  if truthy x then (t <- call_trim x ;; Returned (n <? String.length t)%nat)
  else Returned false.

(** [i => !/^rule$/.test(i.ruleId)]: the pattern has no flag, so it matches
    the whole of the string [i.ruleId] converts to, and nothing else. *)
Definition not_rule (rule : string) (i : value) : Outcome bool :=
  r <- get i "ruleId" ;;
  s <- to_string r ;;
  Returned (negb (String.eqb s rule)).

(** The nine [.filter] passes, in program order. *)
Definition grammarPasses : list (value -> Outcome bool) :=
  [ is_error;
    long_field "message" 5;
    long_field "context" 10;
    not_rule "MORFOLOGIK_RULE_EN_US";
    not_rule "COMMA_PARENTHESIS_WHITESPACE";
    not_rule "SEND_AN_EMAIL";
    not_rule "MISSING_COMMA_AFTER_YEAR";
    not_rule "EN_DASH_RULE";
    not_rule "EN_QUOTES" ].

(** [l.filter(p1).filter(p2)...]: each pass runs over the whole result of
    the pass before. *)
Fixpoint filterChain (ps : list (value -> Outcome bool)) (l : list value)
  : Outcome (list value) :=
  match ps with
  | [] => Returned l
  | p :: ps' => l' <- filterM p l ;; filterChain ps' l'
  end.

Definition filterGrammarIssues (issues : value) : Outcome (list value) :=
  if negb (truthy issues) || negb (truthy (prop issues "matches"))
  then Returned []
  else
    l <- as_array (prop issues "matches") ;;
    filterChain grammarPasses l.

(** ** The network and the environment *)

(** What [axios.post] is asked to send.  The Safe Browsing request body is
    fixed apart from its [threatEntries]; the LanguageTool form is fixed
    apart from its [text]. *)
Inductive NetCall : Type :=
| SafeBrowsingPost (apiUrl : string) (threatEntries : list value)
| LanguageToolPost (url : string) (text : string).

(** The error [axios] rejects with: its [message], and [response.data] when
    the server answered (a status outside 2xx). *)
Record AxiosError : Type := {
  ax_message : string;
  ax_response : option value
}.

Inductive AxiosReply : Type :=
| Resolved (data : value)
| Rejected (err : AxiosError).

(** The remote services, as seen from one request. *)
Definition Network : Type := NetCall -> AxiosReply.

(** [process.env] *)
Record Env : Type := {
  GOOGLE_SAFE_BROWSING_API_KEY : option string;
  LANGUAGETOOL_API_URL : option string
}.

(** [process.env.X || d] *)
Definition env_or (x : option string) (d : string) : string :=
  match x with
  | Some s => if String.eqb s "" then d else s
  | None => d
  end.

Definition GOOGLE_KEY (env : Env) : string :=
  trim (env_or (GOOGLE_SAFE_BROWSING_API_KEY env) "").

Definition LT_URL (env : Env) : string :=
  env_or (LANGUAGETOOL_API_URL env) "https://api.languagetool.org/v2/check".

(** A computation that may throw and that records the requests it sent. *)
Definition Eff (A : Type) : Type := (Outcome A * list NetCall)%type.

Definition ret {A} (a : A) : Eff A := (Returned a, []).

Definition lift {A} (m : Outcome A) : Eff A := (m, []).

Definition bind {A B} (m : Eff A) (f : A -> Eff B) : Eff B :=
  match m with
  | (Returned a, sent) => let (r, sent') := f a in (r, sent ++ sent')
  | (Thrown e, sent) => (Thrown e, sent)
  end.

Notation "x <~ m ;; k" := (bind m (fun x => k))
  (at level 61, m at next level, right associativity) : outcome_scope.

(** [await axios.post(...)]: the request is sent and the reply awaited. *)
Definition axios_post (net : Network) (call : NetCall) : Eff AxiosReply :=
  (Returned (net call), [call]).

(** [err.response ? err.response.data : err.message] *)
Definition error_payload (err : AxiosError) : value :=
  match ax_response err with
  | Some data => data
  | None => Str (ax_message err)
  end.

Definition exn_message (e : Exn) : string :=
  match e with TypeError msg => msg end.

(** ** [googleSafeBrowsingLookup] *)

Definition googleSafeBrowsingLookup (env : Env) (net : Network) (urls : list value)
  : Eff value :=
  if String.eqb (GOOGLE_KEY env) ""
  then ret (Obj [("success", Bool true); ("matches", Arr [])])
  else
    let apiUrl :=
      ("https://safebrowsing.googleapis.com/v4/threatMatches:find?key="
         ++ GOOGLE_KEY env)%string in
    let threatEntries := map (fun u => Obj [("url", u)]) urls in
    reply <~ axios_post net (SafeBrowsingPost apiUrl threatEntries) ;;
    match reply with
    | Resolved data =>
        ret (Obj [("success", Bool true);
                  ("matches",
                   if truthy data && truthy (prop data "matches")
                   then prop data "matches" else Arr [])])
    | Rejected err =>
        ret (Obj [("success", Bool false); ("error", error_payload err)])
    end.

(** ** [languageToolCheck] *)

(** [params.append('text', text)] converts [text] to a string inside the
    [try]; a throw there is caught like a rejected request, and the caught
    engine error has no [response]. *)
Definition languageToolCheck (env : Env) (net : Network) (text : value) : Eff value :=
  match to_string text with
  | Thrown e =>
      ret (Obj [("success", Bool false); ("error", Str (exn_message e))])
  | Returned s =>
      reply <~ axios_post net (LanguageToolPost (LT_URL env) s) ;;
      match reply with
      | Resolved data => ret (Obj [("success", Bool true); ("data", data)])
      | Rejected err =>
          ret (Obj [("success", Bool false); ("error", error_payload err)])
      end
  end.

(** ** The handler of [POST /api/analyze] *)

(** An element of [heuristicResults] and of [suspiciousLinks]. *)
Record Finding : Type := {
  url : value;
  reasons : list string
}.

(** An element of [finalSuspicious]: the reasons are one display string. *)
Record SuspiciousLink : Type := {
  link_url : value;
  link_reasons : string
}.

Inductive Verdict : Type := safe | warning | suspicious.

Definition MAX_TEXT : nat := N.to_nat 30000.
Opaque MAX_TEXT.
Definition MAX_LINKS : nat := 50.
Definition SNIPPET_LENGTH : nat := 200.

(** [v.slice(0, n)]: strings and arrays have the method. *)
Definition call_slice (v : value) (n : nat) : Outcome value :=
  match v with
  | Str s => Returned (Str (slice0 n s))
  | Arr l => Returned (Arr (firstn n l))
  | _ => Thrown (TypeError "slice is not a function")
  end.

(** [v.length] of a string or an array. *)
Definition length_nat (v : value) : option nat :=
  match v with
  | Str s => Some (String.length s)
  | Arr l => Some (List.length l)
  | _ => None
  end.

Definition js_length (v : value) : value :=
  match length_nat v with
  | Some n => Num (index_key n)
  | None => Undefined
  end.

(** [Array.isArray(payload.links) ? payload.links.slice(0, 50) : []] *)
Definition normalizeLinks (payload : value) : list value :=
  match prop payload "links" with
  | Arr l => firstn MAX_LINKS l
  | _ => []
  end.

(** [(payload.text || '').slice(0, 30000)] *)
Definition normalizeText (payload : value) : Outcome value :=
  call_slice (or_else (prop payload "text") (Str "")) MAX_TEXT.

(** [payload.snippet || (text.slice(0, 200))] *)
Definition normalizeSnippet (payload text : value) : Outcome value :=
  if truthy (prop payload "snippet") then Returned (prop payload "snippet")
  else call_slice text SNIPPET_LENGTH.

(** The [for (const url of links)] loop. *)
Fixpoint heuristicScan (links : list value) : Outcome (list Finding) :=
  match links with
  | [] => Returned []
  | u :: rest =>
      rs <- heuristicLinkCheck u ;;
      more <- heuristicScan rest ;;
      Returned (match rs with
                | [] => more
                | _ => {| url := u; reasons := rs |} :: more
                end)
  end.

(** The url of a threat match, from either shape of the answer. *)
Definition entryUrl (m : value) : value :=
  if truthy m && truthy (prop m "threat") && truthy (prop (prop m "threat") "url")
  then prop (prop m "threat") "url"
  else if truthy m && truthy (prop m "threatEntry")
          && truthy (prop (prop m "threatEntry") "url")
  then prop (prop m "threatEntry") "url"
  else Null.

(** The body of [sb.matches.forEach]: [m.threatType] is read without the
    guard that [entryUrl] has. *)
Definition threatFinding (m : value) : Outcome Finding :=
  threatType <- get m "threatType" ;;
  label <- to_string (or_else threatType (Str "THREAT")) ;;
  Returned {| url := or_else (entryUrl m) (Str "(unknown)");
              reasons := [("Google Safe Browsing match: " ++ label)%string] |}.

Fixpoint mapM {A B} (f : A -> Outcome B) (l : list A) : Outcome (list B) :=
  match l with
  | [] => Returned []
  | x :: xs => y <- f x ;; ys <- mapM f xs ;; Returned (y :: ys)
  end.

(** [if (sb.success && Array.isArray(sb.matches) && sb.matches.length)] *)
Definition threatFindings (sb : value) : Outcome (list Finding) :=
  if truthy (prop sb "success")
  then match prop sb "matches" with
       | Arr (m :: ms) => mapM threatFinding (m :: ms)
       | _ => Returned []
       end
  else Returned [].

(** The link scanning block: [suspiciousLinks] when it ends. *)
Definition linkScan (env : Env) (net : Network) (options : value)
           (links : list value) : Eff (list Finding) :=
  if truthy options && truthy (prop options "linkScanner")
  then
    heuristicResults <~ lift (heuristicScan links) ;;
    sb <~ googleSafeBrowsingLookup env net links ;;
    threats <~ lift (threatFindings sb) ;;
    ret (threats ++ heuristicResults)
  else ret [].

(** [{ ...v }]: the own enumerable properties of [v]. *)
Definition own_properties (v : value) : list (string * value) :=
  match v with
  | Obj props => props
  | Arr l => combine (map index_key (seq 0 (List.length l))) l
  | Str s =>
      combine (map index_key (seq 0 (String.length s)))
              (map (fun c => Str (String c EmptyString)) (list_ascii_of_string s))
  | _ => []
  end.

(** [{ ...props, k: v }] *)
Fixpoint set_prop (k : string) (v : value) (props : list (string * value))
  : list (string * value) :=
  match props with
  | [] => [(k, v)]
  | (k', v') :: rest =>
      if String.eqb k k' then (k, v) :: rest else (k', v') :: set_prop k v rest
  end.

(** The grammar block: the value of [grammar] when it ends. *)
Definition grammarCheck (env : Env) (net : Network) (options text : value)
  : Eff value :=
  if truthy options && truthy (prop options "grammarChecker") && truthy text
     && match length_nat text with Some n => (10 <=? n)%nat | None => false end
  then
    lt <~ languageToolCheck env net text ;;
    if truthy (prop lt "success")
    then
      matches <~ lift (filterGrammarIssues (prop lt "data")) ;;
      ret (Obj (set_prop "matches" (Arr matches) (own_properties (prop lt "data"))))
    else
      ret (Obj [("error", or_else (prop lt "error") (Str "LanguageTool error"))])
  else ret Null.

Definition phishingPhrases : list string :=
  ["you won"; "claim your"; "click here"; "verify your account";
   "update your account"; "urgent"; "congratulations"; "prize"; "winner"].

(** The phishing block. *)
Definition foundPhrases (text : value) : Outcome (list string) :=
  textLow <- call_toLowerCase (or_else text (Str "")) ;;
  Returned (filter (fun p => includes textLow p) phishingPhrases).

(** The overall status block. *)
Definition overall (suspiciousLinks : list Finding) (found : list string)
           (grammar : value) : Verdict :=
  if (0 <? List.length suspiciousLinks)%nat || (0 <? List.length found)%nat
  then suspicious
  else if truthy grammar && truthy (prop grammar "matches")
          && match length_nat (prop grammar "matches") with
             | Some n => (15 <? n)%nat
             | None => false
             end
  then warning
  else safe.

(** *** Deduplication *)

(** SameValueZero, the key equality of [Map].  Arrays and objects are
    compared by identity; the keys of the map are values that JSON parsing
    created one by one, so two keys that are arrays or objects are never the
    same one. *)
Definition same_value_zero (a b : value) : bool :=
  match a, b with
  | Undefined, Undefined => true
  | Null, Null => true
  | Bool x, Bool y => Bool.eqb x y
  | Num x, Num y => String.eqb x y
  | Str x, Str y => String.eqb x y
  | _, _ => false
  end.

(** A [Map] from urls to reason lists, in insertion order. *)
Definition UrlMap : Type := list (value * list string).

Fixpoint map_get (m : UrlMap) (k : value) : option (list string) :=
  match m with
  | [] => None
  | (k', v) :: rest => if same_value_zero k' k then Some v else map_get rest k
  end.

Fixpoint map_set (m : UrlMap) (k : value) (v : list string) : UrlMap :=
  match m with
  | [] => [(k, v)]
  | (k', v') :: rest =>
      if same_value_zero k' k then (k', v) :: rest else (k', v') :: map_set rest k v
  end.

(** [map.set(s.url, (map.get(s.url) || []).concat(s.reasons || []))] *)
Definition addFinding (m : UrlMap) (s : Finding) : UrlMap :=
  map_set m (url s)
          (match map_get m (url s) with Some rs => rs | None => [] end ++ reasons s).

Definition groupByUrl (suspiciousLinks : list Finding) : UrlMap :=
  fold_left addFinding suspiciousLinks [].

(** [Array.from(new Set(l))]: the first occurrence of each string, in order. *)
Definition uniq (l : list string) : list string :=
  fold_left (fun seen x => if existsb (String.eqb x) seen then seen else seen ++ [x])
            l [].

Definition finalSuspicious (suspiciousLinks : list Finding) : list SuspiciousLink :=
  map (fun e => {| link_url := fst e; link_reasons := join ", " (uniq (snd e)) |})
      (groupByUrl suspiciousLinks).

(** *** The response *)

(** The fields of the object given to [res.json] on success. *)
Record Analysis : Type := {
  a_subject : value;
  a_snippet : value;
  a_textLength : value;
  a_suspiciousLinks : list SuspiciousLink;
  a_grammar : value;
  a_foundPhrases : list string;
  a_overall : Verdict
}.

Definition verdict_string (v : Verdict) : string :=
  match v with
  | safe => "safe"
  | warning => "warning"
  | suspicious => "suspicious"
  end.

Definition link_json (l : SuspiciousLink) : value :=
  Obj [("url", link_url l); ("reasons", Str (link_reasons l))].

Definition analysis_json (a : Analysis) : value :=
  Obj [("success", Bool true);
       ("payload", Obj [("subject", a_subject a);
                        ("snippet", a_snippet a);
                        ("textLength", a_textLength a)]);
       ("suspiciousLinks", Arr (map link_json (a_suspiciousLinks a)));
       ("grammar", a_grammar a);
       ("foundPhrases", Arr (map Str (a_foundPhrases a)));
       ("overall", Str (verdict_string (a_overall a)))].

(** Lines 96 to 169: the work on a payload that is present. *)
Definition analysis (env : Env) (net : Network) (payload options : value)
  : Eff Analysis :=
  let links := normalizeLinks payload in
  text <~ lift (normalizeText payload) ;;
  let subject := or_else (prop payload "subject") (Str "") in
  snippet <~ lift (normalizeSnippet payload text) ;;
  suspiciousLinks <~ linkScan env net options links ;;
  grammar <~ grammarCheck env net options text ;;
  found <~ lift (foundPhrases text) ;;
  ret {| a_subject := subject;
         a_snippet := snippet;
         a_textLength := js_length text;
         a_suspiciousLinks := finalSuspicious suspiciousLinks;
         a_grammar := grammar;
         a_foundPhrases := found;
         a_overall := overall suspiciousLinks found grammar |}.

(** What [res.status(...).json(...)] sends. *)
Record Response : Type := {
  status : nat;
  json : value
}.

Definition failure (code : nat) (message : string) : Response :=
  {| status := code;
     json := Obj [("success", Bool false); ("error", Str message)] |}.

(** The [try] block of the handler. *)
Definition analyze_try (env : Env) (net : Network) (body : value) : Eff Response :=
  payload <~ lift (get body "payload") ;;
  options <~ lift (get body "options") ;;
  if negb (truthy payload) then ret (failure 400 "Missing payload")
  else
    a <~ analysis env net payload options ;;
    ret {| status := 200; json := analysis_json a |}.

(** [err.message || String(err)] *)
Definition error_text (e : Exn) : string :=
  if String.eqb (exn_message e) "" then "TypeError" else exn_message e.

(** The handler: the response and the requests that were sent. *)
Definition analyze (env : Env) (net : Network) (body : value)
  : Response * list NetCall :=
  match analyze_try env net body with
  | (Returned r, sent) => (r, sent)
  | (Thrown e, sent) => (failure 500 (error_text e), sent)
  end.

(** * Specification vocabulary *)

(** Case, stated without reference to the program: the capital and the
    small letters of the alphabet, paired.  The dictionaries of the scorer
    and of the matcher hold no letter outside [a]-[z]. *)
Definition letter_pairs : list (ascii * ascii) :=
  combine (list_ascii_of_string "ABCDEFGHIJKLMNOPQRSTUVWXYZ")
          (list_ascii_of_string "abcdefghijklmnopqrstuvwxyz").

(** [c] and [d] are the same character up to case: the same character, or
    the capital and the small form of one letter. *)
Definition same_letter (c d : ascii) : Prop :=
  c = d \/ In (c, d) letter_pairs \/ In (d, c) letter_pairs.

(** Two strings are the same up to case: the same length, and the same
    character up to case at each place. *)
Inductive same_word : string -> string -> Prop :=
| same_word_empty : same_word EmptyString EmptyString
| same_word_cons c d m t :
    same_letter c d -> same_word m t -> same_word (String c m) (String d t).

(** [t] occurs in [s] up to case: some run of [s] is [t] up to case. *)
Definition occurs_ci (t s : string) : Prop :=
  exists p m q, s = (p ++ m ++ q)%string /\ same_word m t.

(** [s] ends with [t] up to case. *)
Definition ends_ci (t s : string) : Prop :=
  exists p m, s = (p ++ m)%string /\ same_word m t.

(** [same_letter], decided. *)
Definition same_letterb (c d : ascii) : bool :=
  Ascii.eqb c d
  || existsb (fun p => Ascii.eqb (fst p) c && Ascii.eqb (snd p) d) letter_pairs
  || existsb (fun p => Ascii.eqb (fst p) d && Ascii.eqb (snd p) c) letter_pairs.

(** A character below U+0080 that is no capital letter, and a word made of
    such characters: the words of the dictionaries are of this kind. *)
Definition small_char (d : ascii) : bool :=
  let n := N_of_ascii d in ((n <? 65) || ((90 <? n) && (n <? 128)))%N.

Definition small_word (t : string) : bool :=
  forallb small_char (list_ascii_of_string t).

(** The 256 code units. *)
Definition all_ascii : list ascii := map ascii_of_nat (seq 0 256).

(** [l] is [d] with some elements left out: the elements of [l] come from
    [d] and in the order of [d]. *)
Inductive Subseq {A : Type} : list A -> list A -> Prop :=
| Subseq_nil : Subseq [] []
| Subseq_skip x l d : Subseq l d -> Subseq l (x :: d)
| Subseq_take x l d : Subseq l d -> Subseq (x :: l) (x :: d).

(** Every reason the scorer can give, in the order it gives them. *)
Definition all_reasons : list string :=
  map contains_reason suspiciousTokens ++ [punycode_reason] ++ map tld_reason oddTlds.

(** What [heuristicLinkCheck] owes on a url [u] whose text is [s]: it
    returns, the reasons it returns are decided by what [s] contains, and
    they come in the order of [all_reasons]. *)
Definition scorer_spec (u : value) (s : string) : Prop :=
  exists rs,
    heuristicLinkCheck u = Returned rs
    /\ (forall tok, In tok suspiciousTokens ->
                    (In (contains_reason tok) rs <-> occurs_ci tok s))
    /\ (In punycode_reason rs <-> occurs_ci "xn--" s)
    /\ (includes s "xn--" = true -> In punycode_reason rs)
    /\ (forall t, In t oddTlds -> (In (tld_reason t) rs <-> ends_ci t s))
    /\ (forall t, In t oddTlds -> endsWith s t = true -> In (tld_reason t) rs)
    /\ Subseq rs all_reasons
    /\ NoDup rs
    /\ (forall r, In r rs -> In r all_reasons).

(** What the phrase matcher owes on a text [s]: it returns the phrases of
    the dictionary that occur in [s] up to case, in dictionary order. *)
Definition matcher_spec (text : value) (s : string) : Prop :=
  exists found,
    foundPhrases text = Returned found
    /\ (forall p, In p found <-> In p phishingPhrases /\ occurs_ci p s)
    /\ Subseq found phishingPhrases.

(** The answer of the threat-list client when nothing was looked up. *)
Definition no_matches : value := Obj [("success", Bool true); ("matches", Arr [])].

(** The tagged failure of an external-call wrapper. *)
Definition soft_failure (error : value) : value :=
  Obj [("success", Bool false); ("error", error)].

(** The request [googleSafeBrowsingLookup] sends for [urls]. *)
Definition safeBrowsingCall (env : Env) (urls : list value) : NetCall :=
  SafeBrowsingPost
    ("https://safebrowsing.googleapis.com/v4/threatMatches:find?key=" ++ GOOGLE_KEY env)
    (map (fun u => Obj [("url", u)]) urls).

(** An environment without credential, and one with a credential. *)
Definition env_no_key : Env :=
  {| GOOGLE_SAFE_BROWSING_API_KEY := None; LANGUAGETOOL_API_URL := None |}.

Definition env_with_key : Env :=
  {| GOOGLE_SAFE_BROWSING_API_KEY := Some "secret"; LANGUAGETOOL_API_URL := None |}.

(** A network on which every request fails in transport. *)
Definition net_down : Network :=
  fun _ => Rejected {| ax_message := "connect ECONNREFUSED"; ax_response := None |}.

(** The reasons that the findings of [sl] give for the url [k], in order. *)
Definition reasons_for (k : value) (sl : list Finding) : list string :=
  flat_map reasons (filter (fun f => same_value_zero (url f) k) sl).

(** The entries of a map under the key [k]. *)
Definition entries_for (k : value) (m : UrlMap) : UrlMap :=
  filter (fun e => same_value_zero (fst e) k) m.

(** The entries of the final list whose url is [k]. *)
Definition links_for (k : value) (final : list SuspiciousLink) : list SuspiciousLink :=
  filter (fun l => same_value_zero (link_url l) k) final.

(** The number of grammar issues a [grammar] value carries. *)
Definition grammarIssueCount (grammar : value) : nat :=
  match prop grammar "matches" with
  | Arr l => List.length l
  | _ => 0
  end.

(** The precedence of the verdict, read off the response: link or phrase
    evidence first, then more than 15 grammar issues, then [safe]. *)
Definition verdict_spec (links : list SuspiciousLink) (phrases : list string)
           (grammar : value) : Verdict :=
  match links, phrases with
  | [], [] => if (15 <? grammarIssueCount grammar)%nat then warning else safe
  | _, _ => suspicious
  end.

(** [options && options.linkScanner], [options && options.grammarChecker] *)
Definition linkScanner_on (options : value) : bool :=
  truthy options && truthy (prop options "linkScanner").

Definition grammarChecker_on (options : value) : bool :=
  truthy options && truthy (prop options "grammarChecker").

(** The body of a request. *)
Definition request (payload options : value) : value :=
  Obj [("payload", payload); ("options", options)].

(** The three forms the handler gives to [grammar]. *)
Definition grammar_shape (grammar : value) : Prop :=
  grammar = Null
  \/ (exists e, grammar = Obj [("error", e)])
  \/ (exists props matches, grammar = Obj (set_prop "matches" (Arr matches) props)).

(** A threat-list service that reports one url as malware, next to a
    grammar service that is down. *)
Definition net_malware : Network :=
  fun call =>
    match call with
    | SafeBrowsingPost _ _ =>
        Resolved (Obj [("matches",
                        Arr [Obj [("threatType", Str "MALWARE");
                                  ("threat", Obj [("url", Str "http://bank.example")])]])])
    | LanguageToolPost _ _ =>
        Rejected {| ax_message := "timeout of 20000ms exceeded"; ax_response := None |}
    end.

Definition options_all : value :=
  Obj [("linkScanner", Bool true); ("grammarChecker", Bool true)].

Definition payload_bank : value :=
  Obj [("text", Str "Hello, see the link.");
       ("links", Arr [Str "http://bank.example"; Str "http://plain.example"])].

(** A grammar service that finds twenty serious errors, next to a
    threat-list service that finds nothing. *)
Definition issue_example : value :=
  Obj [("severity", Str "error");
       ("message", Str "Possible agreement error");
       ("context", Str "the quick brown foxes jumps");
       ("ruleId", Str "AGREEMENT_SENT_START")].

Definition net_twenty_issues : Network :=
  fun call =>
    match call with
    | SafeBrowsingPost _ _ => Resolved (Obj [])
    | LanguageToolPost _ _ =>
        Resolved (Obj [("language", Str "en-US");
                       ("matches", Arr (repeat issue_example 20))])
    end.

Definition payload_plain : value :=
  Obj [("text", Str "A text of no interest at all.");
       ("links", Arr [Str "http://plain.example"])].

(** [{ ...data, matches }]: the filtered list put back where the raw list
    was, as the grammar block does. *)
Definition rewrap (data : value) (matches : list value) : value :=
  Obj (set_prop "matches" (Arr matches) (own_properties data)).

(** The filter on a raw issue list, that is on the answer that carries it. *)
Definition filterIssueList (raw : list value) : Outcome (list value) :=
  filterGrammarIssues (Obj [("matches", Arr raw)]).

(** A string, or a value that counts as false. *)
Definition plain (v : value) : bool :=
  match v with
  | Str _ => true
  | _ => negb (truthy v)
  end.

(** An issue record as the grammar service documents it: an object whose
    [message] and [context] are strings when present, and whose [ruleId] is
    a string when present. *)
Definition wellformed_issue (i : value) : bool :=
  match i with
  | Obj _ =>
      plain (prop i "message") && plain (prop i "context")
      && match prop i "ruleId" with
         | Str _ | Undefined => true
         | _ => false
         end
  | _ => false
  end.

Definition suppressedRules : list string :=
  ["MORFOLOGIK_RULE_EN_US"; "COMMA_PARENTHESIS_WHITESPACE"; "SEND_AN_EMAIL";
   "MISSING_COMMA_AFTER_YEAR"; "EN_DASH_RULE"; "EN_QUOTES"].

(** The conjunction of the filters, on a well-formed issue. *)
Definition issue_survives (i : value) : bool :=
  match prop i "severity" with Str s => String.eqb s "error" | _ => false end
  && match prop i "message" with
     | Str s => (5 <? String.length (trim s))%nat
     | _ => false
     end
  && match prop i "context" with
     | Str s => (10 <? String.length (trim s))%nat
     | _ => false
     end
  && negb match prop i "ruleId" with
          | Str r => existsb (String.eqb r) suppressedRules
          | _ => false
          end.

(** Each pass of [grammarPasses] with its decision on a well-formed issue. *)
Definition rule_differs (rule : string) (i : value) : bool :=
  match prop i "ruleId" with
  | Str r => negb (String.eqb r rule)
  | _ => true
  end.

Definition long_enough (f : string) (n : nat) (i : value) : bool :=
  match prop i f with
  | Str s => (n <? String.length (trim s))%nat
  | _ => false
  end.

Definition grammarDecisions : list ((value -> Outcome bool) * (value -> bool)) :=
  [ (is_error,
     fun i => match prop i "severity" with Str s => String.eqb s "error" | _ => false end);
    (long_field "message" 5, long_enough "message" 5);
    (long_field "context" 10, long_enough "context" 10);
    (not_rule "MORFOLOGIK_RULE_EN_US", rule_differs "MORFOLOGIK_RULE_EN_US");
    (not_rule "COMMA_PARENTHESIS_WHITESPACE", rule_differs "COMMA_PARENTHESIS_WHITESPACE");
    (not_rule "SEND_AN_EMAIL", rule_differs "SEND_AN_EMAIL");
    (not_rule "MISSING_COMMA_AFTER_YEAR", rule_differs "MISSING_COMMA_AFTER_YEAR");
    (not_rule "EN_DASH_RULE", rule_differs "EN_DASH_RULE");
    (not_rule "EN_QUOTES", rule_differs "EN_QUOTES") ].

(** A payload on which the handler's own steps cannot throw: its text is a
    string or counts as false, and so does each of the links it keeps. *)
Definition payload_wellformed (payload : value) : Prop :=
  plain (prop payload "text") = true
  /\ forallb plain (normalizeLinks payload) = true.

(** Services whose answers, when they answer, can be processed: each threat
    match of the threat-list service can be turned into a finding, and the
    grammar filter returns on the data of the grammar service. *)
Definition services_wellformed (net : Network) : Prop :=
  forall call data,
    net call = Resolved data ->
    match call with
    | SafeBrowsingPost _ _ =>
        forall ms, prop data "matches" = Arr ms ->
                   exists findings, mapM threatFinding ms = Returned findings
    | LanguageToolPost _ _ =>
        exists matches, filterGrammarIssues data = Returned matches
    end.

(** What the grammar block computes on a string text when it runs. *)
Definition grammarResult (net : Network) (url t : string) : Outcome value :=
  match net (LanguageToolPost url t) with
  | Resolved data =>
      matches <- filterGrammarIssues data ;; Returned (rewrap data matches)
  | Rejected err =>
      Returned (Obj [("error", or_else (error_payload err) (Str "LanguageTool error"))])
  end.




Fixpoint replicate (n : nat) (c : ascii) : string :=
  match n with
  | O => EmptyString
  | S n' => String c (replicate n' c)
  end.

(** A payload of 40,000 characters and 60 links. *)
Definition long_text : string := replicate (N.to_nat 40000) "a"%char.

Definition sixty_links : list value :=
  map (fun n => Str ("http://site" ++ index_key n ++ ".example")) (seq 0 60).

Definition props_big : list (string * value) :=
  [("subject", Str "big"); ("text", Str long_text); ("links", Arr sixty_links)].

Definition options_links : value := Obj [("linkScanner", Bool true)].

(** A payload whose [links] is not an array. *)
Definition payload_links_string : value :=
  Obj [("text", Str "Hello there, friend."); ("links", Str "http://bank.example")].

(** A payload whose [links] is not an array and whose text is a number. *)
Definition payload_numeric_text : value :=
  Obj [("text", Num "5"); ("links", Str "http://bank.example")].

(** A raw issue list: one serious error, one with a tiny message, one that
    is only a hint, one under a suppressed rule. *)
Definition raw_example : list value :=
  [ issue_example;
    Obj [("severity", Str "error"); ("message", Str "Typo");
         ("context", Str "the quick brown foxes jumps");
         ("ruleId", Str "SOME_RULE")];
    Obj [("severity", Str "hint"); ("message", Str "Consider a shorter word");
         ("context", Str "the quick brown foxes jumps");
         ("ruleId", Str "WORDINESS")];
    Obj [("severity", Str "error"); ("message", Str "Use smart quotes here");
         ("context", Str "the quick brown foxes jumps");
         ("ruleId", Str "EN_QUOTES")] ].

(** A request whose second link is a number. *)
Definition payload_bad_link : value :=
  Obj [("text", Str "Hello there, friend.");
       ("links", Arr [Str "http://plain.example"; Num "42"])].

(** A threat-list answer whose list of matches holds a [null]. *)
Definition net_null_match : Network :=
  fun call =>
    match call with
    | SafeBrowsingPost _ _ =>
        Resolved (Obj [("matches",
                        Arr [Obj [("threatType", Str "MALWARE");
                                  ("threat", Obj [("url", Str "http://bank.example")])];
                             Null])])
    | LanguageToolPost _ _ => Resolved (Obj [("matches", Arr [])])
    end.

(** How a threat match [m] fixes the url of its finding [f]: [threat.url]
    first, then [threatEntry.url], then the marker; and its one reason, from
    the threat type or the word THREAT. *)
Definition resolves (m : value) (f : Finding) : Prop :=
  truthy (url f) = true
  /\ (truthy (prop (prop m "threat") "url") = true ->
      url f = prop (prop m "threat") "url")
  /\ (truthy (prop (prop m "threat") "url") = false ->
      truthy (prop (prop m "threatEntry") "url") = true ->
      url f = prop (prop m "threatEntry") "url")
  /\ (truthy (prop (prop m "threat") "url") = false ->
      truthy (prop (prop m "threatEntry") "url") = false ->
      url f = Str "(unknown)")
  /\ exists label,
      to_string (or_else (prop m "threatType") (Str "THREAT")) = Returned label
      /\ reasons f = [("Google Safe Browsing match: " ++ label)%string].

(** Two threat matches: one names its url under [threatEntry], the other
    names none. *)
Definition matches_two : list value :=
  [Obj [("threatEntry", Obj [("url", Str "http://a.example")])];
   Obj [("threatType", Str "MALWARE")]].

Definition answer_two : value :=
  Obj [("success", Bool true); ("matches", Arr matches_two)].

(** The urls of [l] in order of first appearance, [seen] being the urls met
    before; two urls are the same when [same_value_zero] says so. *)
Fixpoint first_urls (seen l : list value) : list value :=
  match l with
  | [] => []
  | x :: rest =>
      if existsb (fun y => same_value_zero y x) seen
      then first_urls seen rest
      else x :: first_urls (seen ++ [x]) rest
  end.

(** What holds of an issue that the grammar filter lets through. *)
Definition survivor (i : value) : Prop :=
  prop i "severity" = Str "error"
  /\ (exists s, prop i "message" = Str s /\ 5 < String.length (trim s))
  /\ (exists s, prop i "context" = Str s /\ 10 < String.length (trim s))
  /\ (exists r, to_string (prop i "ruleId") = Returned r /\ ~ In r suppressedRules).

(** A payload with a long text and no snippet. *)
Definition payload_long_text : value :=
  Obj [("subject", Str "Offer"); ("text", Str (replicate 250 "x"%char))].

(** An environment whose credential is blank. *)
Definition env_blank_key : Env :=
  {| GOOGLE_SAFE_BROWSING_API_KEY := Some "   "; LANGUAGETOOL_API_URL := None |}.

(** * Vertical redundancy check

    The C listing that follows the server in [src/server.js] (lines 182 to
    259, "Error detection vrc.md"): [calculateVRC] appends a parity bit to
    blocks of 8 binary digits and [verifyVRC] checks the blocks.  A row of
    [char data[][9]] or [char parityData[][10]] is the list of its
    characters, an [int] is a [Z].  A read or a write outside an array is
    undefined in C; the model reads [NUL] there and leaves the array as it
    is, and the theorems are stated for arrays that are large enough. *)

Module VRC.

Definition NUL : ascii := Ascii.zero.

(** [l[j] = x] *)
Definition store {A} (l : list A) (j : nat) (x : A) : list A :=
  if (j <? List.length l)%nat then firstn j l ++ x :: skipn (S j) l else l.

(** [for (j = 0; j < n; j++) if (row[j] == '1') count++;] from [count = 0] *)
Definition count_ones (row : list ascii) (n : nat) : Z :=
  fold_left (fun (count : Z) (j : nat) =>
               if Ascii.eqb (nth j row NUL) "1"%char then (count + 1)%Z else count)
            (seq 0 n) 0%Z.

(** The characters [strncpy(dest, src, n)] writes: those of [src] up to its
    first [NUL], then [NUL]s, [n] in all. *)
Fixpoint strncpy_chars (src : list ascii) (n : nat) : list ascii :=
  match n with
  | O => []
  | S n' =>
      match src with
      | c :: rest =>
          if Ascii.eqb c NUL then repeat NUL (S n') else c :: strncpy_chars rest n'
      | [] => repeat NUL (S n')
      end
  end.

(** [strncpy(dest, src, n)] *)
Definition strncpy (dest src : list ascii) (n : nat) : list ascii :=
  strncpy_chars src n ++ skipn n dest.

(** The parity bit for a block with [count] ones. *)
Definition parity_bit (count evenParity : Z) : ascii :=
  if negb (Z.eqb evenParity 0)
  then (if Z.eqb (Z.rem count 2) 0 then "0"%char else "1"%char)
  else (if Z.eqb (Z.rem count 2) 0 then "1"%char else "0"%char).

(** The body of the loop of [calculateVRC] on the rows [data[i]] and
    [parityData[i]]: the new [parityData[i]]. *)
Definition calculate_row (d p : list ascii) (evenParity : Z) : list ascii :=
  let count := count_ones d 8 in
  let p1 := store p 8 (parity_bit count evenParity) in
  let p2 := strncpy p1 d 8 in
  store p2 9 NUL.

(** [calculateVRC(data, rows, parityData, evenParity)]: the new
    [parityData]. *)
Definition calculateVRC (data : list (list ascii)) (rows : Z)
           (parityData : list (list ascii)) (evenParity : Z) : list (list ascii) :=
  fold_left (fun pd i =>
               store pd i (calculate_row (nth i data []) (nth i pd []) evenParity))
            (seq 0 (Z.to_nat rows)) parityData.

(** The test that makes [verifyVRC] return 0 on a row. *)
Definition row_fails (row : list ascii) (evenParity : Z) : bool :=
  let count := count_ones row 9 in
  (negb (Z.eqb evenParity 0) && negb (Z.eqb (Z.rem count 2) 0))
  || (Z.eqb evenParity 0 && Z.eqb (Z.rem count 2) 0).

(** The loop of [verifyVRC] over the rows of indices [range]. *)
Fixpoint verify_loop (range : list nat) (parityData : list (list ascii))
         (evenParity : Z) : Z :=
  match range with
  | [] => 1%Z
  | i :: rest =>
      if row_fails (nth i parityData []) evenParity then 0%Z
      else verify_loop rest parityData evenParity
  end.

Definition verifyVRC (parityData : list (list ascii)) (rows : Z) (evenParity : Z) : Z :=
  verify_loop (seq 0 (Z.to_nat rows)) parityData evenParity.

(** The number of ones of a list of characters. *)
Definition ones (l : list ascii) : nat :=
  List.length (filter (fun c => Ascii.eqb c "1"%char) l).

(** A block of [data]: 8 characters, none of them [NUL], and the
    terminator. *)
Definition block (d : list ascii) : Prop :=
  List.length d = 9 /\ Forall (fun c => c <> NUL) (firstn 8 d).

(** A binary block: 8 binary digits and the terminator. *)
Definition binary_block (d : list ascii) : Prop :=
  List.length d = 9 /\ Forall (fun c => c = "0"%char \/ c = "1"%char) (firstn 8 d).

(** A row of [parityData]. *)
Definition room (p : list ascii) : Prop := List.length p = 10.

(** The other binary digit. *)
Definition flip (c : ascii) : ascii :=
  if Ascii.eqb c "1"%char then "0"%char else "1"%char.

(** The blocks of [main], and its uninitialized [parityData]. *)
Definition main_data : list (list ascii) :=
  map (fun s => list_ascii_of_string s ++ [NUL])
      ["11001101"; "10101010"; "11110000"; "00001111"]%string.

Definition main_parityData : list (list ascii) := repeat (repeat NUL 10) 4.

End VRC.

(** * Theorems *)

(** ** Strings *)

Lemma startsWith_spec (s t : string) :
  startsWith s t = true <-> exists q, s = (t ++ q)%string.
Proof.
  unfold startsWith. revert s.
  induction t as [|a t IH]; intros s.
  - split; [intros _; now exists s | intros _; now destruct s].
  - destruct s as [|b s]; simpl;
      [split; [discriminate | intros [q Hq]; discriminate]|].
    destruct (ascii_dec a b) as [->|Hab].
    + rewrite IH. split; intros [q Hq]; exists q; [now rewrite Hq | now injection Hq].
    + split; [discriminate | intros [q Hq]; injection Hq; intros _ E; now symmetry in E].
Qed.

Lemma includes_spec (s t : string) :
  includes s t = true <-> exists p q, s = (p ++ t ++ q)%string.
Proof.
  split.
  - induction s as [|c s IH]; cbn [includes].
    + destruct (startsWith "" t) eqn:E; [|easy].
      intros _. apply startsWith_spec in E. destruct E as [q Hq].
      now exists EmptyString, q.
    + destruct (startsWith (String c s) t) eqn:E.
      * intros _. apply startsWith_spec in E. destruct E as [q Hq].
        now exists EmptyString, q.
      * intros H. destruct (IH H) as (p & q & Hpq).
        exists (String c p), q. simpl. now rewrite Hpq.
  - intros (p & q & Hpq). revert s Hpq.
    induction p as [|c p IH]; intros s Hpq.
    + assert (E : startsWith s t = true) by (apply startsWith_spec; now exists q).
      destruct s; cbn [includes]; now rewrite E.
    + subst s. cbn [includes append].
      destruct (startsWith (String c (p ++ t ++ q)) t); [reflexivity|].
      now apply IH.
Qed.

Lemma endsWith_spec (s t : string) :
  endsWith s t = true <-> exists p, s = (p ++ t)%string.
Proof.
  split.
  - induction s as [|c s IH]; cbn [endsWith].
    + destruct (String.eqb_spec "" t) as [<-|]; [|easy].
      intros _. now exists EmptyString.
    + destruct (String.eqb_spec (String c s) t) as [<-|].
      * intros _. now exists EmptyString.
      * intros H. destruct (IH H) as [p Hp]. exists (String c p). simpl. now rewrite Hp.
  - intros [p Hp]. revert s Hp.
    induction p as [|c p IH]; intros s Hp; cbn [append] in Hp.
    + subst s. destruct t; cbn [endsWith]; now rewrite String.eqb_refl.
    + subst s. cbn [endsWith].
      destruct (String.eqb (String c (p ++ t)) t); [reflexivity|].
      now apply IH.
Qed.

Lemma toLowerCase_app (a b : string) :
  toLowerCase (a ++ b) = (toLowerCase a ++ toLowerCase b)%string.
Proof. induction a as [|c a IH]; simpl; [reflexivity | now rewrite IH]. Qed.

Lemma toLowerCase_split (s a b : string) :
  toLowerCase s = (a ++ b)%string ->
  exists a0 b0, s = (a0 ++ b0)%string /\ toLowerCase a0 = a /\ toLowerCase b0 = b.
Proof.
  revert s. induction a as [|c a IH]; intros s H; simpl in H.
  - now exists EmptyString, s.
  - destruct s as [|d s]; [discriminate|]. simpl in H.
    injection H as Hc Hs. destruct (IH s Hs) as (a0 & b0 & -> & Ha & Hb).
    exists (String d a0), b0. simpl. now rewrite Hc, Ha.
Qed.

(** *** Case *)

Lemma all_ascii_complete (c : ascii) : In c all_ascii.
Proof.
  unfold all_ascii. rewrite <- (ascii_nat_embedding c).
  apply in_map, in_seq. pose proof (nat_ascii_bounded c). lia.
Qed.

Lemma same_letterb_spec (c d : ascii) : same_letterb c d = true <-> same_letter c d.
Proof.
  assert (Hex : forall x y,
             existsb (fun p => Ascii.eqb (fst p) x && Ascii.eqb (snd p) y) letter_pairs
             = true <-> In (x, y) letter_pairs).
  { intros x y. rewrite existsb_exists. split.
    - intros ([a b] & Hin & H). apply andb_prop in H. destruct H as [Ha Hb].
      apply Ascii.eqb_eq in Ha, Hb. cbn [fst snd] in Ha, Hb. now subst.
    - intros Hin. exists (x, y). split; [exact Hin|].
      cbn [fst snd]. now rewrite !Ascii.eqb_refl. }
  unfold same_letterb, same_letter.
  rewrite !orb_true_iff, !Hex, Ascii.eqb_eq. tauto.
Qed.

(** On a character that is no capital, [toLowerCase] maps exactly the
    characters that are the same up to case; and it cannot tell two
    characters apart that are the same up to case. *)
Lemma lower_char_table :
  forallb (fun c =>
             forallb (fun d =>
                        implb (small_char d)
                              (Bool.eqb (Ascii.eqb (lower_char c) d) (same_letterb c d))
                        && implb (same_letterb c d)
                                 (Ascii.eqb (lower_char c) (lower_char d)))
                     all_ascii)
          all_ascii = true.
Proof. vm_compute. reflexivity. Qed.

Lemma lower_char_small (c d : ascii) :
  small_char d = true -> (lower_char c = d <-> same_letter c d).
Proof.
  intros Hd. pose proof lower_char_table as H.
  rewrite forallb_forall in H. specialize (H c (all_ascii_complete c)).
  rewrite forallb_forall in H. specialize (H d (all_ascii_complete d)).
  apply andb_prop in H. destruct H as [H _]. rewrite Hd in H. cbn [implb] in H.
  apply Bool.eqb_prop in H.
  rewrite <- same_letterb_spec, <- H. apply iff_sym, Ascii.eqb_eq.
Qed.

Lemma lower_char_same_letter (c d : ascii) :
  same_letter c d -> lower_char c = lower_char d.
Proof.
  intros Hcd. pose proof lower_char_table as H.
  rewrite forallb_forall in H. specialize (H c (all_ascii_complete c)).
  rewrite forallb_forall in H. specialize (H d (all_ascii_complete d)).
  apply andb_prop in H. destruct H as [_ H].
  apply same_letterb_spec in Hcd. rewrite Hcd in H. cbn [implb] in H.
  now apply Ascii.eqb_eq.
Qed.

Lemma same_word_refl (t : string) : same_word t t.
Proof. induction t; constructor; [now left | assumption]. Qed.

(** A word without capitals is what [toLowerCase] makes of exactly the words
    that are the same up to case. *)
Lemma toLowerCase_small_word (t : string) :
  small_word t = true -> forall m, toLowerCase m = t <-> same_word m t.
Proof.
  unfold small_word. induction t as [|d t IH]; intros Ht m.
  - destruct m; cbn [toLowerCase]; split; intros H;
      try constructor; try discriminate H; inversion H.
  - cbn [list_ascii_of_string forallb] in Ht. apply andb_prop in Ht.
    destruct Ht as [Hd Ht]. destruct m as [|c m]; cbn [toLowerCase].
    + split; intros H; [discriminate H | inversion H].
    + split.
      * intros H. injection H as Hc Hm. constructor.
        -- now apply lower_char_small.
        -- now apply IH.
      * intros H. inversion H as [|? ? ? ? Hc Hm]; subst. f_equal.
        -- now apply lower_char_small.
        -- now apply IH.
Qed.

(** [toLowerCase] cannot tell two words apart that are the same up to case. *)
Lemma toLowerCase_same_word (s s' : string) :
  same_word s s' -> toLowerCase s = toLowerCase s'.
Proof.
  induction 1 as [|c d m t Hcd _ IH]; [reflexivity|].
  cbn [toLowerCase]. now rewrite (lower_char_same_letter c d Hcd), IH.
Qed.

(** Searching the lower-cased string for a word without capitals is
    searching up to case. *)
Lemma includes_toLowerCase (s t : string) :
  small_word t = true ->
  (includes (toLowerCase s) t = true <-> occurs_ci t s).
Proof.
  intros Ht. rewrite includes_spec. unfold occurs_ci. split.
  - intros (p & q & H).
    apply toLowerCase_split in H. destruct H as (p0 & r & -> & _ & Hr).
    apply toLowerCase_split in Hr. destruct Hr as (m & q0 & -> & Hm & _).
    exists p0, m, q0. split; [reflexivity|]. now apply toLowerCase_small_word.
  - intros (p & m & q & -> & Hm). apply (toLowerCase_small_word t Ht) in Hm.
    exists (toLowerCase p), (toLowerCase q). now rewrite !toLowerCase_app, Hm.
Qed.

Lemma endsWith_toLowerCase (s t : string) :
  small_word t = true ->
  (endsWith (toLowerCase s) t = true <-> ends_ci t s).
Proof.
  intros Ht. rewrite endsWith_spec. unfold ends_ci. split.
  - intros (p & H).
    apply toLowerCase_split in H. destruct H as (p0 & m & -> & _ & Hm).
    exists p0, m. split; [reflexivity|]. now apply toLowerCase_small_word.
  - intros (p & m & -> & Hm). apply (toLowerCase_small_word t Ht) in Hm.
    exists (toLowerCase p). now rewrite toLowerCase_app, Hm.
Qed.

(** ** Lists *)

Lemma Subseq_refl {A} (l : list A) : Subseq l l.
Proof. induction l; constructor; assumption. Qed.

Lemma Subseq_app {A} (a b c d : list A) :
  Subseq a b -> Subseq c d -> Subseq (a ++ c) (b ++ d).
Proof. intros Hab Hcd. induction Hab; simpl; try constructor; assumption. Qed.

Lemma Subseq_incl {A} (l d : list A) : Subseq l d -> incl l d.
Proof.
  induction 1 as [|x l d _ IH|x l d _ IH]; intros y Hy.
  - assumption.
  - right. now apply IH.
  - destruct Hy as [->|Hy]; [now left | right; now apply IH].
Qed.

Lemma Subseq_NoDup {A} (l d : list A) : Subseq l d -> NoDup d -> NoDup l.
Proof.
  induction 1 as [|x l d Hs IH|x l d Hs IH]; intros Hd.
  - constructor.
  - apply IH. now inversion Hd.
  - inversion Hd as [|y d' Hx Hd']; subst. constructor; [|now apply IH].
    intros Hin. apply Hx. now apply (Subseq_incl l d).
Qed.

Lemma Subseq_filter {A} (p : A -> bool) (l : list A) : Subseq (filter p l) l.
Proof.
  induction l as [|x l IH]; simpl; [constructor|].
  destruct (p x); constructor; assumption.
Qed.

(** The [forEach] loops that push [f t] when [p t] holds. *)
Lemma Subseq_select {A B} (p : A -> bool) (f : A -> B) (l : list A) :
  Subseq (flat_map (fun t => if p t then [f t] else []) l) (map f l).
Proof.
  induction l as [|x l IH]; simpl; [constructor|].
  destruct (p x); simpl; constructor; assumption.
Qed.

Lemma in_select {A B} (p : A -> bool) (f : A -> B) (l : list A) (y : B) :
  In y (flat_map (fun t => if p t then [f t] else []) l)
  <-> exists t, In t l /\ p t = true /\ f t = y.
Proof.
  rewrite in_flat_map. split.
  - intros (t & Ht & Hy). exists t. destruct (p t); simpl in Hy; intuition.
  - intros (t & Ht & Hp & Hy). exists t. rewrite Hp. simpl. auto.
Qed.

Lemma in_when {B} (b : bool) (x y : B) :
  In y (if b then [x] else []) <-> b = true /\ x = y.
Proof. destruct b; simpl; intuition congruence. Qed.

(** ** The link scorer *)

Lemma append_length (a b : string) :
  String.length (a ++ b) = String.length a + String.length b.
Proof. induction a; simpl; congruence. Qed.

Lemma append_cancel_r (a b c : string) : (a ++ c = b ++ c)%string -> a = b.
Proof.
  revert b. induction a as [|x a IH]; intros [|y b] H; simpl in H.
  - reflexivity.
  - apply (f_equal String.length) in H. simpl in H. rewrite append_length in H. lia.
  - apply (f_equal String.length) in H. simpl in H. rewrite append_length in H. lia.
  - injection H as -> H. f_equal. now apply IH.
Qed.

Lemma contains_reason_inj (t t' : string) :
  contains_reason t = contains_reason t' -> t = t'.
Proof.
  unfold contains_reason. simpl. intros H. injection H as H.
  now apply append_cancel_r in H.
Qed.

Lemma tld_reason_inj (t t' : string) : tld_reason t = tld_reason t' -> t = t'.
Proof. unfold tld_reason. simpl. intros H. now injection H. Qed.

Lemma heuristicReasons_contains (lower tok : string) :
  In (contains_reason tok) (heuristicReasons lower)
  <-> In tok suspiciousTokens /\ includes lower tok = true.
Proof.
  unfold heuristicReasons. rewrite !in_app_iff, !in_select, in_when. split.
  - intros [(t & Ht & Hp & E) | [[_ E] | (t & _ & _ & E)]].
    + apply contains_reason_inj in E. now subst t.
    + discriminate E.
    + discriminate E.
  - intros [Ht Hp]. left. now exists tok.
Qed.

Lemma heuristicReasons_punycode (lower : string) :
  In punycode_reason (heuristicReasons lower) <-> includes lower "xn--" = true.
Proof.
  unfold heuristicReasons. rewrite !in_app_iff, !in_select, in_when. split.
  - intros [(t & _ & _ & E) | [[H _] | (t & _ & _ & E)]];
      [discriminate E | exact H | discriminate E].
  - intros H. right. left. now split.
Qed.

Lemma heuristicReasons_tld (lower t : string) :
  In (tld_reason t) (heuristicReasons lower)
  <-> In t oddTlds /\ endsWith lower t = true.
Proof.
  unfold heuristicReasons. rewrite !in_app_iff, !in_select, in_when. split.
  - intros [(t' & _ & _ & E) | [[_ E] | (t' & Ht & Hp & E)]].
    + discriminate E.
    + discriminate E.
    + apply tld_reason_inj in E. now subst t'.
  - intros [Ht Hp]. right. right. now exists t.
Qed.

Lemma heuristicReasons_order (lower : string) :
  Subseq (heuristicReasons lower) all_reasons.
Proof.
  unfold heuristicReasons, all_reasons.
  apply Subseq_app; [apply Subseq_select|].
  apply Subseq_app; [|apply Subseq_select].
  destruct (includes lower "xn--");
    [apply Subseq_refl | apply Subseq_skip, Subseq_nil].
Qed.

Lemma all_reasons_NoDup : NoDup all_reasons.
Proof.
  assert (E : nodup string_dec all_reasons = all_reasons) by (vm_compute; reflexivity).
  rewrite <- E. apply NoDup_nodup.
Qed.

Lemma heuristicLinkCheck_Str (s : string) :
  heuristicLinkCheck (Str s) = Returned (heuristicReasons (toLowerCase s)).
Proof.
  unfold heuristicLinkCheck, or_else. simpl.
  destruct (String.eqb_spec s "") as [->|]; reflexivity.
Qed.

(** A word occurs up to case wherever it occurs. *)
Lemma includes_occurs_ci (s t : string) : includes s t = true -> occurs_ci t s.
Proof.
  intros H. apply includes_spec in H. destruct H as (p & q & ->).
  exists p, t, q. split; [reflexivity | apply same_word_refl].
Qed.

Lemma endsWith_ends_ci (s t : string) : endsWith s t = true -> ends_ci t s.
Proof.
  intros H. apply endsWith_spec in H. destruct H as (p & ->).
  exists p, t. split; [reflexivity | apply same_word_refl].
Qed.

Lemma suspiciousTokens_small (tok : string) :
  In tok suspiciousTokens -> small_word tok = true.
Proof. simpl. intuition (subst; reflexivity). Qed.

Lemma oddTlds_small (t : string) : In t oddTlds -> small_word t = true.
Proof. simpl. intuition (subst; reflexivity). Qed.

Lemma phishingPhrases_small (p : string) :
  In p phishingPhrases -> small_word p = true.
Proof. simpl. intuition (subst; reflexivity). Qed.

Lemma scorer_spec_lower (u : value) (s : string) :
  heuristicLinkCheck u = Returned (heuristicReasons (toLowerCase s)) ->
  scorer_spec u s.
Proof.
  intros Hu. exists (heuristicReasons (toLowerCase s)).
  split; [exact Hu|].
  split; [|split; [|split; [|split; [|split; [|split; [|split]]]]]].
  - intros tok Htok. rewrite heuristicReasons_contains.
    rewrite (includes_toLowerCase s tok (suspiciousTokens_small tok Htok)). tauto.
  - rewrite heuristicReasons_punycode. now apply includes_toLowerCase.
  - intros H. apply heuristicReasons_punycode.
    apply includes_toLowerCase; [reflexivity | now apply includes_occurs_ci].
  - intros t Ht. rewrite heuristicReasons_tld.
    rewrite (endsWith_toLowerCase s t (oddTlds_small t Ht)). tauto.
  - intros t Ht H. apply heuristicReasons_tld. split; [assumption|].
    apply endsWith_toLowerCase; [now apply oddTlds_small | now apply endsWith_ends_ci].
  - apply heuristicReasons_order.
  - apply (Subseq_NoDup _ all_reasons);
      [apply heuristicReasons_order | apply all_reasons_NoDup].
  - apply Subseq_incl, heuristicReasons_order.
Qed.

(** C7. The link scorer returns on every string and on a missing url, and
    never throws there.  The reasons it returns are exactly: for each
    suspicious token that occurs in the url up to case, [contains "<token>"];
    the punycode reason when [xn--] occurs up to case; [tld <tld>] for each
    odd TLD the url ends with up to case; they come in the fixed order of
    the dictionary, each once, and each of them is one of the fixed
    dictionary-derived strings.  Case is the case of the letters A to Z,
    stated by [same_word] and not by the program's own lower-casing: two
    urls that are the same up to case get the same reasons. *)
Theorem heuristicLinkCheck_total_and_exact :
  (forall s, scorer_spec (Str s) s)
  /\ scorer_spec Null ""
  /\ scorer_spec Undefined ""
  /\ (forall s s', same_word s s' ->
                   heuristicLinkCheck (Str s) = heuristicLinkCheck (Str s')).
Proof.
  split; [|split; [|split]].
  - intros s. apply scorer_spec_lower, heuristicLinkCheck_Str.
  - apply scorer_spec_lower. reflexivity.
  - apply scorer_spec_lower. reflexivity.
  - intros s s' H. rewrite !heuristicLinkCheck_Str.
    now rewrite (toLowerCase_same_word s s' H).
Qed.

(** A url in capitals: the token, the punycode marker and the TLD are found
    as they are in the url in small letters. *)
Lemma heuristicLinkCheck_total_and_exact_witness :
  heuristicLinkCheck (Str "HTTP://XN--BANK.Example.RU")
  = Returned [contains_reason "bank"; punycode_reason; tld_reason ".ru"]
  /\ occurs_ci "bank" "HTTP://XN--BANK.Example.RU"
  /\ occurs_ci "xn--" "HTTP://XN--BANK.Example.RU"
  /\ ends_ci ".ru" "HTTP://XN--BANK.Example.RU"
  /\ ~ occurs_ci "login" "HTTP://XN--BANK.Example.RU"
  /\ heuristicLinkCheck (Str "HTTP://XN--BANK.Example.RU")
     = heuristicLinkCheck (Str "http://xn--bank.example.ru").
Proof.
  assert (Hrun : heuristicLinkCheck (Str "HTTP://XN--BANK.Example.RU")
                 = Returned [contains_reason "bank"; punycode_reason; tld_reason ".ru"])
    by (vm_compute; reflexivity).
  destruct heuristicLinkCheck_total_and_exact as (Hspec & _ & _ & _).
  destruct (Hspec "HTTP://XN--BANK.Example.RU")
    as (rs & Hrs & Htok & Hpuny & _ & Htld & _).
  rewrite Hrun in Hrs. injection Hrs as <-.
  split; [exact Hrun|]. split; [|split; [|split; [|split]]].
  - apply Htok; [simpl; tauto | now left].
  - apply Hpuny. right. now left.
  - apply Htld; [simpl; tauto | right; right; now left].
  - intros H. apply Htok in H; [|simpl; tauto].
    destruct H as [H|[H|[H|[]]]]; vm_compute in H; discriminate H.
  - vm_compute. reflexivity.
Defined.

(** ** The phrase matcher *)

(** C9. The phrase matcher returns on every text string; what it returns is
    exactly the phrases of the fixed dictionary that occur in the text up to
    case, as a subsequence of the dictionary (dictionary order, not text
    order).  Case is the case of the letters A to Z, stated by [same_word]
    and not by the program's own lower-casing: two texts that are the same
    up to case give the same phrases. *)
Theorem foundPhrases_total_and_exact :
  (forall s, matcher_spec (Str s) s)
  /\ (forall s s', same_word s s' -> foundPhrases (Str s) = foundPhrases (Str s')).
Proof.
  assert (Hrun : forall s,
             foundPhrases (Str s)
             = Returned (filter (fun p => includes (toLowerCase s) p) phishingPhrases)).
  { intros s. unfold foundPhrases, or_else. simpl.
    destruct (String.eqb_spec s "") as [->|]; reflexivity. }
  split.
  - intros s.
    exists (filter (fun p => includes (toLowerCase s) p) phishingPhrases).
    split; [apply Hrun|]. split; [|apply Subseq_filter].
    intros p. rewrite filter_In. split.
    + intros [Hp H]. split; [exact Hp|].
      now apply (includes_toLowerCase s p (phishingPhrases_small p Hp)).
    + intros [Hp H]. split; [exact Hp|].
      now apply (includes_toLowerCase s p (phishingPhrases_small p Hp)).
  - intros s s' H. rewrite !Hrun. now rewrite (toLowerCase_same_word s s' H).
Qed.

(** A text in mixed case: the phrases are found, in dictionary order. *)
Lemma foundPhrases_total_and_exact_witness :
  foundPhrases (Str "URGENT: You Won a PRIZE, Click HERE")
  = Returned ["you won"; "click here"; "urgent"; "prize"]
  /\ occurs_ci "urgent" "URGENT: You Won a PRIZE, Click HERE"
  /\ occurs_ci "you won" "URGENT: You Won a PRIZE, Click HERE"
  /\ ~ occurs_ci "winner" "URGENT: You Won a PRIZE, Click HERE"
  /\ foundPhrases (Str "URGENT: You Won a PRIZE, Click HERE")
     = foundPhrases (Str "urgent: you won a prize, click here").
Proof.
  assert (Hrun : foundPhrases (Str "URGENT: You Won a PRIZE, Click HERE")
                 = Returned ["you won"; "click here"; "urgent"; "prize"])
    by (vm_compute; reflexivity).
  destruct foundPhrases_total_and_exact as (Hspec & _).
  destruct (Hspec "URGENT: You Won a PRIZE, Click HERE") as (found & Hf & Hin & _).
  rewrite Hrun in Hf. injection Hf as <-.
  split; [exact Hrun|]. split; [|split; [|split]].
  - apply Hin. simpl. tauto.
  - apply Hin. simpl. tauto.
  - intros H.
    assert (Hw : In "winner" ["you won"; "click here"; "urgent"; "prize"])
      by (apply Hin; split; [simpl; tauto | exact H]).
    destruct Hw as [Hw|[Hw|[Hw|[Hw|[]]]]]; discriminate Hw.
  - vm_compute. reflexivity.
Defined.

(** ** The external-call wrappers *)

Lemma GOOGLE_KEY_unset (env : Env) :
  GOOGLE_SAFE_BROWSING_API_KEY env = None -> GOOGLE_KEY env = "".
Proof. unfold GOOGLE_KEY. now intros ->. Qed.

(** C6. Without a configured credential the threat-list client answers
    [{ success: true, matches: [] }] for every url list and sends nothing. *)
Theorem googleSafeBrowsingLookup_without_key (env : Env) (net : Network)
        (urls : list value) :
  GOOGLE_KEY env = "" ->
  googleSafeBrowsingLookup env net urls = (Returned no_matches, []).
Proof. intros H. unfold googleSafeBrowsingLookup. now rewrite H. Qed.

Lemma googleSafeBrowsingLookup_without_key_witness :
  GOOGLE_KEY env_no_key = ""
  /\ googleSafeBrowsingLookup env_no_key net_down [Str "http://bank.example"; Str "http://x.ru"]
     = (Returned no_matches, []).
Proof.
  assert (Hkey : GOOGLE_KEY env_no_key = "") by (apply GOOGLE_KEY_unset; reflexivity).
  split; [exact Hkey|].
  apply (googleSafeBrowsingLookup_without_key env_no_key net_down). exact Hkey.
Defined.

(** ** Deduplication *)

Lemma same_value_zero_eq (a b : value) : same_value_zero a b = true -> a = b.
Proof.
  destruct a, b; simpl; try discriminate; try reflexivity.
  - intros H. apply Bool.eqb_prop in H. now subst.
  - intros H. apply String.eqb_eq in H. now subst.
  - intros H. apply String.eqb_eq in H. now subst.
Qed.

Lemma same_value_zero_Str (u : string) (v : value) :
  same_value_zero v (Str u) = true <-> v = Str u.
Proof.
  split; [apply same_value_zero_eq|].
  intros ->. simpl. apply String.eqb_refl.
Qed.

Lemma filter_none {A} (p : A -> bool) (l : list A) :
  existsb p l = false -> filter p l = [].
Proof.
  induction l as [|x l IH]; simpl; [reflexivity|].
  destruct (p x); simpl; [discriminate | exact IH].
Qed.

Section MapLemmas.

Variable q : value.
Hypothesis q_self : same_value_zero q q = true.

Lemma map_get_entries (m : UrlMap) :
  map_get m q = match entries_for q m with [] => None | e :: _ => Some (snd e) end.
Proof.
  unfold entries_for. induction m as [|[k v] m IH]; simpl; [reflexivity|].
  destruct (same_value_zero k q); [reflexivity | exact IH].
Qed.

Lemma map_set_entries_same (m : UrlMap) (v : list string) :
  entries_for q (map_set m q v)
  = match entries_for q m with [] => [(q, v)] | e :: rest => (fst e, v) :: rest end.
Proof.
  unfold entries_for. induction m as [|[k v'] m IH]; simpl.
  - now rewrite q_self.
  - destruct (same_value_zero k q) eqn:E; simpl; rewrite E; [reflexivity|].
    exact IH.
Qed.

Lemma map_set_entries_other (m : UrlMap) (k : value) (v : list string) :
  same_value_zero k q = false -> entries_for q (map_set m k v) = entries_for q m.
Proof.
  intros Hk. unfold entries_for. induction m as [|[k' v'] m IH]; simpl.
  - now rewrite Hk.
  - destruct (same_value_zero k' k) eqn:E; simpl.
    + apply same_value_zero_eq in E. subst k'. now rewrite Hk.
    + destruct (same_value_zero k' q); [f_equal|]; exact IH.
Qed.

(** After every finding of [sl] was added, the map has one entry under
    [q] when some finding has the url [q], none otherwise, and the entry
    holds the reasons of these findings in order. *)
Lemma groupByUrl_entries (sl : list Finding) :
  entries_for q (groupByUrl sl)
  = if existsb (fun f => same_value_zero (url f) q) sl
    then [(q, reasons_for q sl)] else [].
Proof.
  unfold groupByUrl, reasons_for.
  induction sl as [|f sl IH] using rev_ind; [reflexivity|].
  rewrite fold_left_app, existsb_app, filter_app, flat_map_app. simpl.
  unfold addFinding at 1.
  destruct (same_value_zero (url f) q) eqn:E.
  - pose proof (same_value_zero_eq _ _ E) as Eu. rewrite Eu.
    rewrite map_set_entries_same, map_get_entries, IH. simpl.
    rewrite app_nil_r, orb_true_r.
    destruct (existsb _ sl) eqn:Ex; [reflexivity|].
    now rewrite (filter_none _ _ Ex).
  - rewrite (map_set_entries_other _ _ _ E), IH. simpl.
    now rewrite orb_false_r, app_nil_r.
Qed.

End MapLemmas.

Lemma uniq_step_spec (l seen : list string) :
  let r := fold_left (fun seen x => if existsb (String.eqb x) seen then seen
                                    else seen ++ [x]) l seen in
  (NoDup seen -> NoDup r) /\ (forall x, In x r <-> In x seen \/ In x l).
Proof.
  revert seen. induction l as [|y l IH]; intros seen; simpl.
  - split; [auto | intros x; tauto].
  - destruct (existsb (String.eqb y) seen) eqn:E.
    + destruct (IH seen) as [Hn Hi]. split; [exact Hn|].
      intros x. rewrite Hi.
      apply existsb_exists in E. destruct E as (z & Hz & Ez).
      apply String.eqb_eq in Ez. subst z.
      split; [tauto|]. intros [H|[->|H]]; auto.
    + destruct (IH (seen ++ [y])) as [Hn Hi]. split.
      * intros Hs. apply Hn. apply NoDup_app; [assumption | repeat constructor; auto |].
        intros a Ha [Hy|[]]. subst a.
        assert (Hx : existsb (String.eqb y) seen = true)
          by (apply existsb_exists; exists y; split; [assumption | apply String.eqb_refl]).
        congruence.
      * intros x. rewrite Hi, in_app_iff. simpl. tauto.
Qed.

Lemma uniq_NoDup (l : list string) : NoDup (uniq l).
Proof. apply (uniq_step_spec l []). constructor. Qed.

Lemma uniq_In (l : list string) (x : string) : In x (uniq l) <-> In x l.
Proof.
  unfold uniq. destruct (uniq_step_spec l []) as [_ H]. rewrite H. simpl. tauto.
Qed.

Lemma reasons_for_In (k : value) (sl : list Finding) (r : string) :
  In r (reasons_for k sl)
  <-> exists f, In f sl /\ same_value_zero (url f) k = true /\ In r (reasons f).
Proof.
  unfold reasons_for. rewrite in_flat_map. split.
  - intros (f & Hf & Hr). apply filter_In in Hf. exists f. tauto.
  - intros (f & Hf & Hk & Hr). exists f. rewrite filter_In. tauto.
Qed.

Lemma finalSuspicious_links_for (k : value) (sl : list Finding) :
  same_value_zero k k = true ->
  links_for k (finalSuspicious sl)
  = if existsb (fun f => same_value_zero (url f) k) sl
    then [{| link_url := k; link_reasons := join ", " (uniq (reasons_for k sl)) |}]
    else [].
Proof.
  intros Hk. unfold links_for, finalSuspicious.
  pose proof (groupByUrl_entries k Hk sl) as H. unfold entries_for in H.
  set (m := groupByUrl sl) in *. clearbody m.
  assert (E : forall m : UrlMap,
             filter (fun l => same_value_zero (link_url l) k)
                    (map (fun e => {| link_url := fst e;
                                      link_reasons := join ", " (uniq (snd e)) |}) m)
             = map (fun e => {| link_url := fst e;
                                link_reasons := join ", " (uniq (snd e)) |})
                   (filter (fun e => same_value_zero (fst e) k) m)).
  { clear. induction m as [|e m IH]; simpl; [reflexivity|].
    destruct (same_value_zero (fst e) k); simpl; now rewrite IH. }
  rewrite E, H. destruct (existsb _ sl); reflexivity.
Qed.

(** ** Computations with effects *)

Lemma bind_Returned {A B} (m : Eff A) (f : A -> Eff B) (b : B) (sent : list NetCall) :
  bind m f = (Returned b, sent) ->
  exists a s1 s2, m = (Returned a, s1) /\ f a = (Returned b, s2) /\ sent = s1 ++ s2.
Proof.
  unfold bind. destruct m as [[a|e] s1]; [|discriminate].
  destruct (f a) as [r s2] eqn:E. intros H. injection H as -> <-.
  now exists a, s1, s2.
Qed.

Lemma lift_Returned {A} (m : Outcome A) (a : A) (sent : list NetCall) :
  lift m = (Returned a, sent) -> m = Returned a /\ sent = [].
Proof. unfold lift. intros H. injection H as -> <-. auto. Qed.

Lemma ret_Returned {A} (a b : A) (sent : list NetCall) :
  ret a = (Returned b, sent) -> a = b /\ sent = [].
Proof. unfold ret. intros H. injection H as -> <-. auto. Qed.

Lemma bind_lift {A B} (m : Outcome A) (f : A -> Eff B) :
  bind (lift m) f = match m with Returned a => f a | Thrown e => (Thrown e, []) end.
Proof. unfold bind, lift. destruct m; [|reflexivity]. now destruct (f a). Qed.

(** ** The stages of the handler *)

Lemma foundPhrases_Returned (text : value) (found : list string) :
  foundPhrases text = Returned found ->
  (exists t, text = Str t) \/ truthy text = false.
Proof.
  unfold foundPhrases, or_else. destruct (truthy text) eqn:E; [|auto].
  destruct text; try discriminate. eauto.
Qed.

Lemma slice0_length (n : nat) (s : string) : String.length (slice0 n s) <= n.
Proof.
  revert s. induction n as [|n IH]; intros [|c s]; simpl; try lia.
  specialize (IH s). lia.
Qed.

Lemma call_slice_Returned (v text : value) (n : nat) :
  call_slice v n = Returned text ->
  (exists s, v = Str s /\ text = Str (slice0 n s))
  \/ (exists l, v = Arr l /\ text = Arr (firstn n l)).
Proof.
  destruct v; simpl; intros H; try discriminate H;
    injection H as <-; [left | right]; eauto.
Qed.

Lemma normalizeText_Returned (payload text : value) :
  normalizeText payload = Returned text ->
  (exists t, text = Str t /\ String.length t <= MAX_TEXT)
  \/ (exists l, text = Arr l).
Proof.
  unfold normalizeText. intros H.
  apply call_slice_Returned in H. destruct H as [(s & _ & ->)|(l & _ & ->)].
  - left. eexists. split; [reflexivity | apply slice0_length].
  - right. eauto.
Qed.

Lemma linkScan_Returned (env : Env) (net : Network) (options : value)
      (links : list value) (sl : list Finding) (sent : list NetCall) :
  linkScan env net options links = (Returned sl, sent) ->
  (linkScanner_on options = false /\ sl = [] /\ sent = [])
  \/ (linkScanner_on options = true
      /\ exists heuristicResults sb threats,
          heuristicScan links = Returned heuristicResults
          /\ googleSafeBrowsingLookup env net links = (Returned sb, sent)
          /\ threatFindings sb = Returned threats
          /\ sl = threats ++ heuristicResults).
Proof.
  unfold linkScan, linkScanner_on.
  destruct (truthy options && truthy (prop options "linkScanner")).
  - intros H. right. split; [reflexivity|].
    apply bind_Returned in H. destruct H as (h & s1 & s2 & H1 & H & ->).
    apply lift_Returned in H1. destruct H1 as [H1 ->].
    apply bind_Returned in H. destruct H as (sb & s3 & s4 & H2 & H & ->).
    apply bind_Returned in H. destruct H as (th & s5 & s6 & H3 & H & ->).
    apply lift_Returned in H3. destruct H3 as [H3 ->].
    apply ret_Returned in H. destruct H as [<- ->].
    exists h, sb, th. simpl. rewrite app_nil_r. auto.
  - intros H. apply ret_Returned in H. destruct H as [<- ->]. auto.
Qed.

Lemma analysis_Returned (env : Env) (net : Network) (payload options : value)
      (a : Analysis) (sent : list NetCall) :
  analysis env net payload options = (Returned a, sent) ->
  exists t snippet sl grammar found sent1 sent2,
    normalizeText payload = Returned (Str t)
    /\ normalizeSnippet payload (Str t) = Returned snippet
    /\ linkScan env net options (normalizeLinks payload) = (Returned sl, sent1)
    /\ grammarCheck env net options (Str t) = (Returned grammar, sent2)
    /\ foundPhrases (Str t) = Returned found
    /\ sent = sent1 ++ sent2
    /\ a = {| a_subject := or_else (prop payload "subject") (Str "");
              a_snippet := snippet;
              a_textLength := js_length (Str t);
              a_suspiciousLinks := finalSuspicious sl;
              a_grammar := grammar;
              a_foundPhrases := found;
              a_overall := overall sl found grammar |}.
Proof.
  unfold analysis. intros H.
  apply bind_Returned in H. destruct H as (text & s1 & s2 & H1 & H & ->).
  apply lift_Returned in H1. destruct H1 as [H1 ->].
  apply bind_Returned in H. destruct H as (snippet & s3 & s4 & H2 & H & ->).
  apply lift_Returned in H2. destruct H2 as [H2 ->].
  apply bind_Returned in H. destruct H as (sl & s5 & s6 & H3 & H & ->).
  apply bind_Returned in H. destruct H as (g & s7 & s8 & H4 & H & ->).
  apply bind_Returned in H. destruct H as (found & s9 & s10 & H5 & H & ->).
  apply lift_Returned in H5. destruct H5 as [H5 ->].
  apply ret_Returned in H. destruct H as [<- ->].
  assert (Ht : exists t, text = Str t).
  { destruct (foundPhrases_Returned _ _ H5) as [Ht|Ht]; [exact Ht|].
    destruct (normalizeText_Returned _ _ H1) as [(t & -> & _)|(l & ->)];
      [eauto | discriminate]. }
  destruct Ht as [t ->].
  exists t, snippet, sl, g, found, s5, s7. simpl. rewrite !app_nil_r. auto 10.
Qed.

Lemma analyze_200 (env : Env) (net : Network) (body : value) :
  status (fst (analyze env net body)) = 200 ->
  exists payload options a,
    get body "payload" = Returned payload
    /\ get body "options" = Returned options
    /\ truthy payload = true
    /\ analysis env net payload options = (Returned a, snd (analyze env net body))
    /\ json (fst (analyze env net body)) = analysis_json a.
Proof.
  unfold analyze, analyze_try. rewrite !bind_lift.
  destruct (get body "payload") as [payload|e]; [|discriminate].
  destruct (get body "options") as [options|e]; [|discriminate].
  destruct (truthy payload) eqn:Hp; simpl; [|discriminate].
  unfold bind. destruct (analysis env net payload options) as [[a|e] sent] eqn:Ha;
    simpl; [|discriminate].
  intros _. exists payload, options, a. rewrite app_nil_r. auto.
Qed.

Lemma heuristicScan_sound (links : list value) (h : list Finding) :
  heuristicScan links = Returned h ->
  Forall (fun f => In (url f) links
                   /\ heuristicLinkCheck (url f) = Returned (reasons f)
                   /\ reasons f <> []) h.
Proof.
  revert h. induction links as [|u links IH]; simpl; intros h H.
  - injection H as <-. constructor.
  - destruct (heuristicLinkCheck u) as [rs|e] eqn:Hu; [|discriminate]. simpl in H.
    destruct (heuristicScan links) as [more|e]; [|discriminate]. simpl in H.
    specialize (IH more eq_refl).
    assert (Hmore : Forall (fun f => In (url f) (u :: links)
                                     /\ heuristicLinkCheck (url f) = Returned (reasons f)
                                     /\ reasons f <> []) more).
    { eapply Forall_impl; [|exact IH]. simpl. tauto. }
    destruct rs as [|r rs]; injection H as <-; [exact Hmore|].
    constructor; [|exact Hmore]. simpl. repeat split; auto. discriminate.
Qed.

Lemma mapM_sound {A B} (f : A -> Outcome B) (l : list A) (r : list B) :
  mapM f l = Returned r -> Forall (fun y => exists x, In x l /\ f x = Returned y) r.
Proof.
  revert r. induction l as [|x l IH]; simpl; intros r H.
  - injection H as <-. constructor.
  - destruct (f x) as [y|e] eqn:Hx; [|discriminate]. simpl in H.
    destruct (mapM f l) as [ys|e]; [|discriminate]. simpl in H.
    injection H as <-. constructor; [eauto|].
    eapply Forall_impl; [|exact (IH ys eq_refl)].
    intros b (a & Ha & Hb). eauto.
Qed.

Lemma threatFindings_sound (sb : value) (threats : list Finding) :
  threatFindings sb = Returned threats ->
  Forall (fun f => exists m, threatFinding m = Returned f) threats.
Proof.
  unfold threatFindings. intros H.
  assert (Hnil : Forall (fun f => exists m, threatFinding m = Returned f) []) by constructor.
  destruct (truthy (prop sb "success")); [|injection H as <-; exact Hnil].
  destruct (prop sb "matches") as [| | | | |[|m ms]|];
    try (injection H as <-; exact Hnil).
  apply mapM_sound in H. eapply Forall_impl; [|exact H].
  intros f (x & _ & Hx). eauto.
Qed.

(** C1. In every answered request, every url that some finding names (so,
    in particular, a url flagged both by the threat-list client and by the
    heuristic scorer) has exactly one entry in [suspiciousLinks]; the reasons
    of that entry are the string that joins, with [", "], a duplicate-free
    list holding exactly the reasons that the findings of either source give
    for that url. *)
Theorem suspiciousLinks_one_entry_per_url
        (env : Env) (net : Network) (payload options : value)
        (a : Analysis) (sent : list NetCall) :
  analysis env net payload options = (Returned a, sent) ->
  exists threats heuristicResults,
    fst (linkScan env net options (normalizeLinks payload))
    = Returned (threats ++ heuristicResults)
    /\ Forall (fun f => exists m, threatFinding m = Returned f) threats
    /\ Forall (fun f => heuristicLinkCheck (url f) = Returned (reasons f))
              heuristicResults
    /\ forall u,
        (exists f, In f (threats ++ heuristicResults) /\ url f = Str u) ->
        exists rs,
          links_for (Str u) (a_suspiciousLinks a)
          = [{| link_url := Str u; link_reasons := join ", " rs |}]
          /\ NoDup rs
          /\ forall r, In r rs
                       <-> exists f, In f (threats ++ heuristicResults)
                                     /\ url f = Str u /\ In r (reasons f).
Proof.
  intros H. apply analysis_Returned in H.
  destruct H as (t & snippet & sl & g & found & s1 & s2 & _ & _ & Hscan & _ & _ & _ & ->).
  simpl.
  assert (Hsplit : exists threats heuristicResults,
             sl = threats ++ heuristicResults
             /\ Forall (fun f => exists m, threatFinding m = Returned f) threats
             /\ Forall (fun f => heuristicLinkCheck (url f) = Returned (reasons f))
                       heuristicResults).
  { destruct (linkScan_Returned _ _ _ _ _ _ Hscan)
      as [(_ & -> & _)|(_ & h & sb & th & Hh & _ & Hth & ->)].
    - exists [], []. repeat split; constructor.
    - exists th, h. split; [reflexivity|]. split.
      + now apply (threatFindings_sound sb).
      + eapply Forall_impl; [|exact (heuristicScan_sound _ _ Hh)]. simpl. tauto. }
  destruct Hsplit as (threats & heur & -> & Hth & Hh).
  exists threats, heur. rewrite Hscan. repeat split; try assumption.
  intros u (f & Hf & Hu).
  exists (uniq (reasons_for (Str u) (threats ++ heur))).
  split; [|split].
  - rewrite finalSuspicious_links_for by (simpl; apply String.eqb_refl).
    assert (E : existsb (fun f => same_value_zero (url f) (Str u)) (threats ++ heur) = true).
    { apply existsb_exists. exists f. split; [assumption|].
      now apply same_value_zero_Str. }
    now rewrite E.
  - apply uniq_NoDup.
  - intros r. rewrite uniq_In, reasons_for_In.
    split; intros (f' & Hf' & Hu' & Hr); exists f'; repeat split; try assumption;
      now apply same_value_zero_Str.
Qed.

Lemma suspiciousLinks_one_entry_per_url_witness :
  exists a sent,
    analysis env_with_key net_malware payload_bank options_all = (Returned a, sent)
    /\ links_for (Str "http://bank.example") (a_suspiciousLinks a)
       = [{| link_url := Str "http://bank.example";
             link_reasons := "Google Safe Browsing match: MALWARE, "
                             ++ contains_reason "bank" |}]
    /\ exists threats heuristicResults,
        fst (linkScan env_with_key net_malware options_all (normalizeLinks payload_bank))
        = Returned (threats ++ heuristicResults)
        /\ Forall (fun f => exists m, threatFinding m = Returned f) threats
        /\ Forall (fun f => heuristicLinkCheck (url f) = Returned (reasons f))
                  heuristicResults
        /\ forall u,
            (exists f, In f (threats ++ heuristicResults) /\ url f = Str u) ->
            exists rs,
              links_for (Str u) (a_suspiciousLinks a)
              = [{| link_url := Str u; link_reasons := join ", " rs |}]
              /\ NoDup rs
              /\ forall r, In r rs
                           <-> exists f, In f (threats ++ heuristicResults)
                                         /\ url f = Str u /\ In r (reasons f).
Proof.
  eexists. eexists. split; [vm_compute; reflexivity|].
  split; [vm_compute; reflexivity|].
  eapply (suspiciousLinks_one_entry_per_url env_with_key net_malware payload_bank options_all).
  vm_compute. reflexivity.
Defined.

(** ** The verdict *)

Lemma assoc_set_prop_same (k : string) (v : value) (props : list (string * value)) :
  assoc k (set_prop k v props) = Some v.
Proof.
  induction props as [|[k' v'] props IH]; simpl.
  - now rewrite String.eqb_refl.
  - destruct (String.eqb k k') eqn:E; simpl.
    + now rewrite String.eqb_refl.
    + rewrite E. exact IH.
Qed.

Lemma assoc_set_prop_other (k k' : string) (v : value) (props : list (string * value)) :
  k <> k' -> assoc k' (set_prop k v props) = assoc k' props.
Proof.
  intros Hk. induction props as [|[k0 v0] props IH]; simpl.
  - destruct (String.eqb_spec k' k); [congruence | reflexivity].
  - destruct (String.eqb_spec k k0) as [<-|]; simpl.
    + destruct (String.eqb_spec k' k); [congruence | reflexivity].
    + destruct (String.eqb k' k0); [reflexivity | exact IH].
Qed.

Lemma grammarCheck_Returned (env : Env) (net : Network) (options text grammar : value)
      (sent : list NetCall) :
  grammarCheck env net options text = (Returned grammar, sent) ->
  (grammar = Null /\ sent = [])
  \/ exists lt,
      languageToolCheck env net text = (Returned lt, sent)
      /\ ((truthy (prop lt "success") = true
           /\ exists matches,
               filterGrammarIssues (prop lt "data") = Returned matches
               /\ grammar = Obj (set_prop "matches" (Arr matches)
                                          (own_properties (prop lt "data"))))
          \/ (truthy (prop lt "success") = false
              /\ grammar = Obj [("error", or_else (prop lt "error")
                                                  (Str "LanguageTool error"))])).
Proof.
  unfold grammarCheck.
  destruct (truthy options && truthy (prop options "grammarChecker") && truthy text
            && match length_nat text with Some n => (10 <=? n)%nat | None => false end).
  - intros H. right.
    apply bind_Returned in H. destruct H as (lt & s1 & s2 & Hlt & H & ->).
    exists lt. destruct (truthy (prop lt "success")).
    + apply bind_Returned in H. destruct H as (ms & s3 & s4 & Hms & H & ->).
      apply lift_Returned in Hms. destruct Hms as [Hms ->].
      apply ret_Returned in H. destruct H as [<- ->].
      rewrite !app_nil_r. split; [assumption|]. left. eauto.
    + apply ret_Returned in H. destruct H as [<- ->].
      rewrite app_nil_r. auto.
  - intros H. apply ret_Returned in H. destruct H as [<- ->]. auto.
Qed.

Lemma grammarCheck_shape (env : Env) (net : Network) (options text grammar : value)
      (sent : list NetCall) :
  grammarCheck env net options text = (Returned grammar, sent) -> grammar_shape grammar.
Proof.
  intros H. unfold grammar_shape.
  destruct (grammarCheck_Returned _ _ _ _ _ _ H)
    as [[-> _]|(lt & _ & [(_ & ms & _ & ->)|(_ & ->)])]; eauto.
Qed.

Lemma map_set_not_nil (m : UrlMap) (k : value) (v : list string) : map_set m k v <> [].
Proof. destruct m as [|[k' v'] m]; simpl; [|destruct (same_value_zero k' k)]; discriminate. Qed.

Lemma finalSuspicious_nil (sl : list Finding) : finalSuspicious sl = [] <-> sl = [].
Proof.
  split; [|now intros ->].
  unfold finalSuspicious, groupByUrl.
  destruct sl as [|f sl _] using rev_ind; [reflexivity|].
  rewrite fold_left_app. simpl. intros H. apply map_eq_nil in H.
  now apply map_set_not_nil in H.
Qed.

Lemma overall_spec (sl : list Finding) (found : list string) (grammar : value) :
  grammar_shape grammar ->
  overall sl found grammar = verdict_spec (finalSuspicious sl) found grammar.
Proof.
  intros Hg. unfold overall, verdict_spec.
  destruct sl as [|f sl].
  - simpl. destruct found as [|p found]; [|reflexivity]. simpl.
    unfold grammarIssueCount.
    destruct Hg as [->|[(e & ->)|(props & ms & ->)]]; try reflexivity.
    simpl. rewrite assoc_set_prop_same. reflexivity.
  - destruct (finalSuspicious (f :: sl)) eqn:E.
    + apply finalSuspicious_nil in E. discriminate.
    + reflexivity.
Qed.

(** C2. In every answered request the verdict follows the precedence:
    [suspicious] when the response lists a suspicious link or a phishing
    phrase; otherwise [warning] when the grammar result carries more than 15
    issues; otherwise [safe].  So 15 issues or fewer never lift the verdict
    above [safe], and link or phrase evidence wins whatever the count. *)
Theorem overall_follows_precedence (env : Env) (net : Network) (body : value) :
  status (fst (analyze env net body)) = 200 ->
  exists a,
    json (fst (analyze env net body)) = analysis_json a
    /\ a_overall a
       = verdict_spec (a_suspiciousLinks a) (a_foundPhrases a) (a_grammar a)
    /\ (a_suspiciousLinks a = [] -> a_foundPhrases a = [] ->
        grammarIssueCount (a_grammar a) <= 15 -> a_overall a = safe)
    /\ (a_suspiciousLinks a = [] -> a_foundPhrases a = [] ->
        15 < grammarIssueCount (a_grammar a) -> a_overall a = warning)
    /\ (a_suspiciousLinks a <> [] \/ a_foundPhrases a <> [] -> a_overall a = suspicious).
Proof.
  intros H. destruct (analyze_200 _ _ _ H) as (payload & options & a & _ & _ & _ & Ha & Hj).
  exists a. split; [exact Hj|].
  apply analysis_Returned in Ha.
  destruct Ha as (t & snippet & sl & g & found & s1 & s2 & _ & _ & _ & Hg & _ & _ & ->).
  simpl. apply grammarCheck_shape in Hg.
  rewrite (overall_spec sl found g Hg). split; [reflexivity|].
  unfold verdict_spec. repeat split.
  - intros -> -> Hc. apply Nat.ltb_ge in Hc. now rewrite Hc.
  - intros -> -> Hc. apply Nat.ltb_lt in Hc. now rewrite Hc.
  - intros [Hl|Hp].
    + destruct (finalSuspicious sl); [congruence | reflexivity].
    + destruct (finalSuspicious sl); destruct found; congruence.
Qed.

Lemma overall_follows_precedence_witness :
  status (fst (analyze env_with_key net_twenty_issues (request payload_plain options_all)))
  = 200
  /\ json (fst (analyze env_with_key net_twenty_issues (request payload_plain options_all)))
     = analysis_json
         {| a_subject := Str "";
            a_snippet := Str "A text of no interest at all.";
            a_textLength := Num "29";
            a_suspiciousLinks := [];
            a_grammar := Obj [("language", Str "en-US");
                              ("matches", Arr (repeat issue_example 20))];
            a_foundPhrases := [];
            a_overall := warning |}
  /\ exists a,
      json (fst (analyze env_with_key net_twenty_issues (request payload_plain options_all)))
      = analysis_json a
      /\ a_overall a
         = verdict_spec (a_suspiciousLinks a) (a_foundPhrases a) (a_grammar a)
      /\ (a_suspiciousLinks a = [] -> a_foundPhrases a = [] ->
          grammarIssueCount (a_grammar a) <= 15 -> a_overall a = safe)
      /\ (a_suspiciousLinks a = [] -> a_foundPhrases a = [] ->
          15 < grammarIssueCount (a_grammar a) -> a_overall a = warning)
      /\ (a_suspiciousLinks a <> [] \/ a_foundPhrases a <> [] -> a_overall a = suspicious).
Proof.
  split; [vm_compute; reflexivity|].
  split; [vm_compute; reflexivity|].
  apply (overall_follows_precedence env_with_key net_twenty_issues
                                    (request payload_plain options_all)).
  vm_compute. reflexivity.
Defined.

(** ** The grammar filter *)

Lemma filterM_Returned {A} (p : A -> Outcome bool) (l r : list A) :
  filterM p l = Returned r ->
  Forall (fun x => p x = Returned true) r /\ incl r l.
Proof.
  revert r. induction l as [|x l IH]; simpl; intros r H.
  - injection H as <-. split; [constructor | apply incl_refl].
  - destruct (p x) as [b|e] eqn:Hx; [|discriminate]. simpl in H.
    destruct (filterM p l) as [r'|e]; [|discriminate]. simpl in H.
    destruct (IH r' eq_refl) as [Hall Hincl].
    destruct b; injection H as <-.
    + split; [now constructor|].
      intros y [<-|Hy]; [now left | right; now apply Hincl].
    + split; [assumption | now apply incl_tl].
Qed.

Lemma filterM_fixed {A} (p : A -> Outcome bool) (r : list A) :
  Forall (fun x => p x = Returned true) r -> filterM p r = Returned r.
Proof. induction 1 as [|x r Hx _ IH]; simpl; [reflexivity | now rewrite Hx, IH]. Qed.

Lemma Forall_incl {A} (P : A -> Prop) (l r : list A) :
  Forall P l -> incl r l -> Forall P r.
Proof. rewrite !Forall_forall. auto. Qed.

Lemma filterChain_Returned (ps : list (value -> Outcome bool)) (l r : list value) :
  filterChain ps l = Returned r ->
  (forall p, In p ps -> Forall (fun x => p x = Returned true) r) /\ incl r l.
Proof.
  revert l. induction ps as [|p ps IH]; simpl; intros l H.
  - injection H as <-. split; [intros p [] | apply incl_refl].
  - destruct (filterM p l) as [l'|e] eqn:Hp; [|discriminate]. simpl in H.
    destruct (filterM_Returned _ _ _ Hp) as [Hall Hincl].
    destruct (IH l' H) as [Hps Hr]. split.
    + intros p' [<-|Hp']; [now apply (Forall_incl _ l') | now apply Hps].
    + now apply incl_tran with l'.
Qed.

Lemma filterChain_fixed (ps : list (value -> Outcome bool)) (r : list value) :
  (forall p, In p ps -> Forall (fun x => p x = Returned true) r) ->
  filterChain ps r = Returned r.
Proof.
  induction ps as [|p ps IH]; simpl; intros H; [reflexivity|].
  rewrite filterM_fixed by (apply H; now left). simpl.
  apply IH. intros p' Hp'. apply H. now right.
Qed.

Lemma filterGrammarIssues_rewrap (data : value) (matches : list value) :
  filterGrammarIssues data = Returned matches ->
  filterGrammarIssues (rewrap data matches) = Returned matches.
Proof.
  unfold filterGrammarIssues at 1. intros H.
  assert (E : filterGrammarIssues (rewrap data matches)
              = filterChain grammarPasses matches).
  { unfold filterGrammarIssues, rewrap. simpl. now rewrite assoc_set_prop_same. }
  rewrite E.
  destruct (negb (truthy data) || negb (truthy (prop data "matches"))).
  - injection H as <-. reflexivity.
  - destruct (as_array (prop data "matches")) as [l|e]; [|discriminate]. simpl in H.
    apply filterChain_fixed. now apply (filterChain_Returned _ l).
Qed.

Lemma filterM_pure {A} (p : A -> Outcome bool) (q : A -> bool) (l : list A) :
  (forall x, In x l -> p x = Returned (q x)) ->
  filterM p l = Returned (filter q l).
Proof.
  induction l as [|x l IH]; simpl; intros H; [reflexivity|].
  rewrite (H x) by now left. simpl. rewrite IH by (intros y Hy; apply H; now right).
  reflexivity.
Qed.

Lemma filter_twice {A} (q q' : A -> bool) (l : list A) :
  filter q' (filter q l) = filter (fun x => q x && q' x) l.
Proof.
  induction l as [|x l IH]; simpl; [reflexivity|].
  destruct (q x); simpl; [destruct (q' x)|]; now rewrite IH.
Qed.

Lemma filterChain_pure (pqs : list ((value -> Outcome bool) * (value -> bool)))
      (l : list value) :
  (forall p q x, In (p, q) pqs -> In x l -> p x = Returned (q x)) ->
  filterChain (map fst pqs) l
  = Returned (filter (fun x => forallb (fun pq => snd pq x) pqs) l).
Proof.
  revert l. induction pqs as [|[p q] pqs IH]; intros l H; simpl.
  - f_equal. clear H. induction l as [|x l IHl]; [reflexivity|].
    cbn [filter forallb]. f_equal. exact IHl.
  - rewrite (filterM_pure p q) by (intros x Hx; apply H; [now left | assumption]).
    simpl. rewrite IH.
    + now rewrite filter_twice.
    + intros p' q' x Hpq Hx. apply filter_In in Hx.
      apply H; [now right | tauto].
Qed.

Lemma get_Obj (props : list (string * value)) (k : string) :
  get (Obj props) k = Returned (prop (Obj props) k).
Proof. reflexivity. Qed.

Lemma long_field_plain (f : string) (n : nat) (i : value) :
  (exists props, i = Obj props) -> plain (prop i f) = true ->
  long_field f n i = Returned (long_enough f n i).
Proof.
  intros [props ->] Hf. unfold long_field, long_enough. rewrite get_Obj. cbn [obind].
  destruct (prop (Obj props) f) as [| |b|r|s|l|o]; cbn [plain truthy] in Hf |- *.
  - reflexivity.
  - reflexivity.
  - apply negb_true_iff in Hf. now rewrite Hf.
  - apply negb_true_iff in Hf. now rewrite Hf.
  - destruct (String.eqb_spec s "") as [->|]; reflexivity.
  - discriminate Hf.
  - discriminate Hf.
Qed.

Lemma not_rule_wellformed (rule : string) (i : value) :
  In rule suppressedRules -> wellformed_issue i = true ->
  not_rule rule i = Returned (rule_differs rule i).
Proof.
  intros Hin Hi. destruct i as [| | | | | |props]; try discriminate Hi.
  unfold wellformed_issue in Hi. apply andb_prop in Hi. destruct Hi as [_ Hr].
  unfold not_rule, rule_differs. rewrite get_Obj. cbn [obind].
  destruct (prop (Obj props) "ruleId"); try discriminate Hr; cbn [to_string obind].
  - simpl in Hin. intuition (subst; reflexivity).
  - reflexivity.
Qed.

Lemma grammarDecisions_agree (p : value -> Outcome bool) (q : value -> bool) (i : value) :
  In (p, q) grammarDecisions -> wellformed_issue i = true -> p i = Returned (q i).
Proof.
  intros Hpq Hi.
  assert (Hobj : exists props, i = Obj props)
    by (destruct i; try discriminate Hi; eauto).
  assert (Hfields : plain (prop i "message") = true /\ plain (prop i "context") = true).
  { destruct Hobj as [props ->]. unfold wellformed_issue in Hi.
    apply andb_prop in Hi. destruct Hi as [Hi _]. now apply andb_prop in Hi. }
  destruct Hfields as [Hm Hc].
  simpl in Hpq.
  repeat (destruct Hpq as [Hpq|Hpq];
          [injection Hpq as <- <-;
           first [ now apply long_field_plain
                 | apply not_rule_wellformed; [simpl; tauto | assumption]
                 | destruct Hobj as [props ->]; reflexivity ] |]).
  destruct Hpq.
Qed.

Lemma grammarDecisions_survive (i : value) :
  wellformed_issue i = true ->
  forallb (fun pq => snd pq i) grammarDecisions = issue_survives i.
Proof.
  intros Hi. unfold issue_survives, grammarDecisions, long_enough, rule_differs.
  cbn [forallb snd].
  destruct (prop i "ruleId"); cbn [existsb suppressedRules];
    rewrite ?andb_true_r, ?orb_false_r, ?negb_orb, <- ?andb_assoc; reflexivity.
Qed.

Lemma filterIssueList_chain (raw : list value) :
  filterIssueList raw = filterChain (map fst grammarDecisions) raw.
Proof. reflexivity. Qed.

Lemma filterIssueList_wellformed (raw : list value) :
  forallb wellformed_issue raw = true ->
  filterIssueList raw = Returned (filter issue_survives raw).
Proof.
  intros Hraw. rewrite forallb_forall in Hraw.
  rewrite filterIssueList_chain, filterChain_pure.
  - f_equal. apply filter_ext_in. intros i Hi.
    apply grammarDecisions_survive. now apply Hraw.
  - intros p q x Hpq Hx. apply grammarDecisions_agree; [assumption | now apply Hraw].
Qed.

(** C4. The grammar filter is idempotent: filtering the filtered list again
    gives the filtered list.  The function takes the answer that carries the
    list under [matches], so the second application is to the answer with
    the filtered list put back, as the grammar block builds it; the same
    holds of the filter seen as a function of the raw list.  On well-formed
    issues the filter returns, and keeps exactly the issues that pass all
    the filters.  (Given a bare list in place of the answer, the function
    finds no [matches] and returns the empty list.) *)
Theorem filterGrammarIssues_idempotent :
  (forall data,
      (matches <- filterGrammarIssues data ;; filterGrammarIssues (rewrap data matches))
      = filterGrammarIssues data)
  /\ (forall raw,
         (matches <- filterIssueList raw ;; filterIssueList matches)
         = filterIssueList raw)
  /\ (forall raw,
         forallb wellformed_issue raw = true ->
         filterIssueList raw = Returned (filter issue_survives raw)
         /\ filterIssueList (filter issue_survives raw)
            = Returned (filter issue_survives raw))
  /\ (forall l, filterGrammarIssues (Arr l) = Returned []).
Proof.
  assert (H1 : forall data,
             (matches <- filterGrammarIssues data ;;
              filterGrammarIssues (rewrap data matches))
             = filterGrammarIssues data).
  { intros data. destruct (filterGrammarIssues data) as [ms|e] eqn:E; simpl.
    - now apply filterGrammarIssues_rewrap.
    - reflexivity. }
  assert (H2 : forall raw,
             (matches <- filterIssueList raw ;; filterIssueList matches)
             = filterIssueList raw).
  { intros raw. exact (H1 (Obj [("matches", Arr raw)])). }
  split; [exact H1|]. split; [exact H2|]. split; [|reflexivity].
  intros raw Hraw. pose proof (filterIssueList_wellformed raw Hraw) as E.
  split; [exact E|].
  specialize (H2 raw). rewrite E in H2. exact H2.
Qed.

Lemma filterGrammarIssues_idempotent_witness :
  forallb wellformed_issue raw_example = true
  /\ filterIssueList raw_example = Returned [issue_example]
  /\ filterIssueList [issue_example] = Returned [issue_example].
Proof.
  destruct (proj1 (proj2 (proj2 filterGrammarIssues_idempotent)) raw_example eq_refl)
    as [Honce Htwice].
  split; [reflexivity|]. split; [exact Honce | exact Htwice].
Defined.

(** ** The wrappers never throw *)

Lemma googleSafeBrowsingLookup_cases (env : Env) (net : Network) (urls : list value) :
  googleSafeBrowsingLookup env net urls
  = if String.eqb (GOOGLE_KEY env) "" then (Returned no_matches, [])
    else (Returned
            match net (safeBrowsingCall env urls) with
            | Resolved data =>
                Obj [("success", Bool true);
                     ("matches",
                      if truthy data && truthy (prop data "matches")
                      then prop data "matches" else Arr [])]
            | Rejected err => soft_failure (error_payload err)
            end,
          [safeBrowsingCall env urls]).
Proof.
  unfold googleSafeBrowsingLookup, safeBrowsingCall, axios_post, bind, ret.
  destruct (String.eqb (GOOGLE_KEY env) ""); [reflexivity|].
  destruct (net _); reflexivity.
Qed.

Lemma languageToolCheck_cases (env : Env) (net : Network) (text : value) :
  languageToolCheck env net text
  = match to_string text with
    | Thrown e => (Returned (soft_failure (Str (exn_message e))), [])
    | Returned s =>
        (Returned
           match net (LanguageToolPost (LT_URL env) s) with
           | Resolved data => Obj [("success", Bool true); ("data", data)]
           | Rejected err => soft_failure (error_payload err)
           end,
         [LanguageToolPost (LT_URL env) s])
    end.
Proof.
  unfold languageToolCheck, axios_post, bind, ret.
  destruct (to_string text); [|reflexivity].
  destruct (net _); reflexivity.
Qed.

Lemma bind_intro {A B} (m : Eff A) (f : A -> Eff B) (a : A) (b : B)
      (s1 s2 : list NetCall) :
  m = (Returned a, s1) -> f a = (Returned b, s2) -> bind m f = (Returned b, s1 ++ s2).
Proof. intros -> H. unfold bind. now rewrite H. Qed.

Lemma or_else_Str (s : string) : or_else (Str s) (Str "") = Str s.
Proof. unfold or_else. simpl. destruct (String.eqb_spec s "") as [->|]; reflexivity. Qed.

Lemma or_else_plain (v : value) :
  plain v = true -> exists s, or_else v (Str "") = Str s.
Proof.
  destruct v; simpl; intros H; try (rewrite or_else_Str; eauto);
    unfold or_else; simpl; try (apply negb_true_iff in H; rewrite H); eauto;
    discriminate H.
Qed.

Lemma normalizeText_plain (payload : value) :
  plain (prop payload "text") = true ->
  exists t, normalizeText payload = Returned (Str t).
Proof.
  intros H. unfold normalizeText. destruct (or_else_plain _ H) as [s ->].
  simpl. eauto.
Qed.

Lemma heuristicLinkCheck_plain (u : value) :
  plain u = true -> exists rs, heuristicLinkCheck u = Returned rs.
Proof.
  intros H. unfold heuristicLinkCheck. destruct (or_else_plain _ H) as [s ->].
  simpl. eauto.
Qed.

Lemma heuristicScan_plain (links : list value) :
  forallb plain links = true -> exists h, heuristicScan links = Returned h.
Proof.
  induction links as [|u links IH]; simpl; intros H; [eauto|].
  apply andb_prop in H. destruct H as [Hu Hl].
  destruct (heuristicLinkCheck_plain u Hu) as [rs ->].
  destruct (IH Hl) as [h ->]. simpl. eauto.
Qed.

Lemma threatFindings_success (matches : value) :
  threatFindings (Obj [("success", Bool true); ("matches", matches)])
  = match matches with
    | Arr (m :: ms) => mapM threatFinding (m :: ms)
    | _ => Returned []
    end.
Proof. reflexivity. Qed.

Lemma threatFindings_returns (data : value) :
  (forall ms, prop data "matches" = Arr ms ->
              exists findings, mapM threatFinding ms = Returned findings) ->
  exists findings,
    threatFindings (Obj [("success", Bool true);
                         ("matches",
                          if truthy data && truthy (prop data "matches")
                          then prop data "matches" else Arr [])])
    = Returned findings.
Proof.
  intros H. rewrite threatFindings_success.
  destruct (truthy data && truthy (prop data "matches")); [|eauto].
  destruct (prop data "matches") as [| | | | |[|m ms]|]; eauto.
Qed.

Lemma linkScan_returns (env : Env) (net : Network) (options : value)
      (links : list value) :
  forallb plain links = true -> services_wellformed net ->
  exists sl sent, linkScan env net options links = (Returned sl, sent).
Proof.
  intros Hl Hnet. unfold linkScan.
  destruct (truthy options && truthy (prop options "linkScanner")); [|unfold ret; eauto].
  destruct (heuristicScan_plain links Hl) as [h Hh]. rewrite Hh, bind_lift.
  rewrite googleSafeBrowsingLookup_cases.
  destruct (String.eqb (GOOGLE_KEY env) ""); [unfold bind, lift, ret; simpl; eauto|].
  destruct (net (safeBrowsingCall env links)) as [data|err] eqn:E;
    [|unfold bind, lift, ret; simpl; eauto].
  pose proof (Hnet _ _ E) as Hms. cbn [safeBrowsingCall] in Hms.
  destruct (threatFindings_returns data Hms) as [fs Hfs].
  unfold bind at 1. rewrite bind_lift, Hfs. unfold ret. eauto.
Qed.

Lemma grammarCheck_returns (env : Env) (net : Network) (options : value) (t : string) :
  services_wellformed net ->
  exists grammar sent, grammarCheck env net options (Str t) = (Returned grammar, sent).
Proof.
  intros Hnet. unfold grammarCheck.
  destruct (truthy options && truthy (prop options "grammarChecker") && truthy (Str t)
            && match length_nat (Str t) with Some n => (10 <=? n)%nat | None => false end);
    [|unfold ret; eauto].
  rewrite languageToolCheck_cases. cbn [to_string].
  destruct (net (LanguageToolPost (LT_URL env) t)) as [data|err] eqn:E.
  - destruct (Hnet _ _ E) as [ms Hms].
    unfold bind at 1. cbn [prop assoc String.eqb Ascii.eqb Bool.eqb truthy].
    rewrite bind_lift, Hms. unfold ret. eauto.
  - unfold bind, ret. simpl. eauto.
Qed.

Lemma analysis_returns (env : Env) (net : Network) (payload options : value) :
  payload_wellformed payload -> services_wellformed net ->
  exists a sent, analysis env net payload options = (Returned a, sent).
Proof.
  intros [Ht Hl] Hnet. unfold analysis.
  destruct (normalizeText_plain payload Ht) as [t Htext].
  rewrite Htext, bind_lift.
  assert (Hs : exists snippet, normalizeSnippet payload (Str t) = Returned snippet).
  { unfold normalizeSnippet. destruct (truthy (prop payload "snippet")); simpl; eauto. }
  destruct Hs as [snippet Hs]. rewrite Hs, bind_lift.
  destruct (linkScan_returns env net options _ Hl Hnet) as (sl & s1 & Hsl).
  destruct (grammarCheck_returns env net options t Hnet) as (g & s2 & Hg).
  assert (Hf : exists found, foundPhrases (Str t) = Returned found).
  { unfold foundPhrases. rewrite or_else_Str. simpl. eauto. }
  destruct Hf as [found Hf].
  eexists. eexists.
  eapply bind_intro; [exact Hsl|].
  eapply bind_intro; [exact Hg|].
  rewrite Hf, bind_lift. reflexivity.
Qed.

Lemma net_rejecting_wellformed (net : Network) :
  (forall call, exists err, net call = Rejected err) -> services_wellformed net.
Proof.
  intros H call data E. destruct (H call) as [err Herr]. congruence.
Qed.

(** C5. A failure of the threat-list call or of the grammar call never
    reaches the handler as an exception.  Each wrapper returns, whatever the
    network does, an object tagged by [success]; when the request is rejected
    (transport failure or a status outside 2xx) the object is
    [{ success: false, error }] with the error payload.  When every external
    call fails, a request with a well-formed payload is still answered, its
    grammar being absent or an error marker. *)
Theorem external_failures_become_data (env : Env) (net : Network) :
  (forall urls, exists sb,
      fst (googleSafeBrowsingLookup env net urls) = Returned sb
      /\ exists b, prop sb "success" = Bool b)
  /\ (forall urls err,
         GOOGLE_KEY env <> "" ->
         net (safeBrowsingCall env urls) = Rejected err ->
         googleSafeBrowsingLookup env net urls
         = (Returned (soft_failure (error_payload err)), [safeBrowsingCall env urls]))
  /\ (forall text, exists lt,
         fst (languageToolCheck env net text) = Returned lt
         /\ exists b, prop lt "success" = Bool b)
  /\ (forall text s err,
         to_string text = Returned s ->
         net (LanguageToolPost (LT_URL env) s) = Rejected err ->
         languageToolCheck env net text
         = (Returned (soft_failure (error_payload err)),
            [LanguageToolPost (LT_URL env) s]))
  /\ (forall payload options,
         payload_wellformed payload ->
         (forall call, exists err, net call = Rejected err) ->
         exists a sent,
           analysis env net payload options = (Returned a, sent)
           /\ (a_grammar a = Null \/ exists e, a_grammar a = Obj [("error", e)])
           /\ exists heuristicResults,
               a_suspiciousLinks a = finalSuspicious heuristicResults
               /\ (linkScanner_on options = true ->
                   heuristicScan (normalizeLinks payload) = Returned heuristicResults)
               /\ (linkScanner_on options = false -> heuristicResults = [])).
Proof.
  split; [|split; [|split; [|split]]].
  - intros urls. rewrite googleSafeBrowsingLookup_cases.
    destruct (String.eqb (GOOGLE_KEY env) ""); simpl;
      [eexists; split; [reflexivity | eexists; reflexivity]|].
    destruct (net (safeBrowsingCall env urls));
      eexists; (split; [reflexivity | eexists; reflexivity]).
  - intros urls err Hk Hn. rewrite googleSafeBrowsingLookup_cases, Hn.
    destruct (String.eqb_spec (GOOGLE_KEY env) ""); [contradiction | reflexivity].
  - intros text. rewrite languageToolCheck_cases.
    destruct (to_string text) as [s|e]; simpl;
      [|eexists; split; [reflexivity | eexists; reflexivity]].
    destruct (net (LanguageToolPost (LT_URL env) s));
      eexists; (split; [reflexivity | eexists; reflexivity]).
  - intros text s err Hs Hn. now rewrite languageToolCheck_cases, Hs, Hn.
  - intros payload options Hp Hn.
    destruct (analysis_returns env net payload options Hp (net_rejecting_wellformed _ Hn))
      as (a & sent & Ha).
    exists a, sent. split; [exact Ha|].
    apply analysis_Returned in Ha.
    destruct Ha as (t & snippet & sl & g & found & s1 & s2
                    & _ & _ & Hsl & Hg & _ & _ & ->).
    cbn [a_grammar a_suspiciousLinks]. split.
    + destruct (grammarCheck_Returned _ _ _ _ _ _ Hg)
        as [[-> _]|(lt & Hlt & [(Hok & _)|(_ & ->)])]; eauto.
      exfalso. rewrite languageToolCheck_cases in Hlt. cbn [to_string] in Hlt.
      destruct (Hn (LanguageToolPost (LT_URL env) t)) as [err Herr].
      rewrite Herr in Hlt. injection Hlt as <- _. discriminate Hok.
    + destruct (linkScan_Returned _ _ _ _ _ _ Hsl)
        as [(Hoff & -> & _)|(Hon & h & sb & th & Hh & Hsb & Hth & ->)].
      * exists []. split; [reflexivity|]. split; [intros Hon; congruence | reflexivity].
      * exists h. rewrite googleSafeBrowsingLookup_cases in Hsb.
        destruct (Hn (safeBrowsingCall env (normalizeLinks payload))) as [err Herr].
        rewrite Herr in Hsb.
        assert (Hnone : th = []).
        { destruct (String.eqb (GOOGLE_KEY env) ""); injection Hsb as <- _;
            cbn in Hth; now injection Hth as <-. }
        subst th. split; [reflexivity|]. split; [intros _; exact Hh|].
        intros Hoff. congruence.
Qed.

Lemma external_failures_become_data_witness :
  googleSafeBrowsingLookup env_with_key net_down [Str "http://bank.example"]
  = (Returned (soft_failure (Str "connect ECONNREFUSED")),
     [safeBrowsingCall env_with_key [Str "http://bank.example"]])
  /\ exists a sent,
      analysis env_with_key net_down payload_bank options_all = (Returned a, sent)
      /\ (a_grammar a = Null \/ exists e, a_grammar a = Obj [("error", e)])
      /\ exists heuristicResults,
          a_suspiciousLinks a = finalSuspicious heuristicResults
          /\ (linkScanner_on options_all = true ->
              heuristicScan (normalizeLinks payload_bank) = Returned heuristicResults)
          /\ (linkScanner_on options_all = false -> heuristicResults = []).
Proof.
  pose proof (external_failures_become_data env_with_key net_down)
    as (_ & Hsb & _ & _ & Hall).
  split.
  - apply (Hsb [Str "http://bank.example"]
               {| ax_message := "connect ECONNREFUSED"; ax_response := None |});
      [discriminate | reflexivity].
  - apply (Hall payload_bank options_all).
    + split; reflexivity.
    + intros call. eexists. reflexivity.
Defined.

(** ** The grammar block *)

Lemma grammarCheck_Str (env : Env) (net : Network) (options : value) (t : string) :
  grammarCheck env net options (Str t)
  = if grammarChecker_on options && (10 <=? String.length t)%nat
    then (grammarResult net (LT_URL env) t, [LanguageToolPost (LT_URL env) t])
    else (Returned Null, []).
Proof.
  unfold grammarCheck, grammarChecker_on, grammarResult.
  cbn [length_nat truthy].
  destruct (truthy options && truthy (prop options "grammarChecker")); cbn [andb];
    [|reflexivity].
  destruct (10 <=? String.length t)%nat eqn:Hlen.
  - assert (Ht : negb (String.eqb t "") = true).
    { destruct t; [discriminate Hlen | reflexivity]. }
    rewrite Ht. cbn [andb].
    rewrite languageToolCheck_cases. cbn [to_string].
    destruct (net (LanguageToolPost (LT_URL env) t)) as [data|err]; unfold bind at 1.
    + change (prop (Obj [("success", Bool true); ("data", data)]) "success")
        with (Bool true).
      change (prop (Obj [("success", Bool true); ("data", data)]) "data") with data.
      cbn [truthy]. rewrite bind_lift.
      destruct (filterGrammarIssues data); reflexivity.
    + reflexivity.
  - now rewrite andb_false_r.
Qed.

Lemma linkScan_sent (env : Env) (net : Network) (options : value)
      (links : list value) :
  snd (linkScan env net options links) = []
  \/ snd (linkScan env net options links) = [safeBrowsingCall env links].
Proof.
  unfold linkScan.
  destruct (truthy options && truthy (prop options "linkScanner")); [|now left].
  rewrite bind_lift. destruct (heuristicScan links); [|now left].
  rewrite googleSafeBrowsingLookup_cases.
  destruct (String.eqb (GOOGLE_KEY env) "").
  - left. unfold bind at 1. rewrite bind_lift.
    destruct (threatFindings no_matches); reflexivity.
  - right. unfold bind at 1. rewrite bind_lift.
    destruct (threatFindings _); reflexivity.
Qed.

(** ** Normalization *)

Lemma slice0_slice0 (n : nat) (s : string) : slice0 n (slice0 n s) = slice0 n s.
Proof.
  revert s. induction n as [|n IH]; intros [|c s]; simpl; try reflexivity.
  now rewrite IH.
Qed.

Lemma slice0_length_min (n : nat) (s : string) :
  String.length (slice0 n s) = Nat.min n (String.length s).
Proof.
  revert s. induction n as [|n IH]; intros [|c s]; simpl; try reflexivity.
  now rewrite IH.
Qed.

Lemma MAX_TEXT_value : N.of_nat MAX_TEXT = 30000%N.
Proof. vm_compute. reflexivity. Qed.

Lemma prop_set_prop (k k' : string) (v : value) (props : list (string * value)) :
  prop (Obj (set_prop k v props)) k'
  = if String.eqb k k' then v else prop (Obj props) k'.
Proof.
  unfold prop. destruct (String.eqb_spec k k') as [<-|Hk].
  - now rewrite assoc_set_prop_same.
  - now rewrite assoc_set_prop_other.
Qed.

Lemma normalizeText_agree (p1 p2 : value) :
  prop p1 "text" = prop p2 "text" -> normalizeText p1 = normalizeText p2.
Proof. unfold normalizeText. now intros ->. Qed.

Lemma analysis_agree (env : Env) (net : Network) (p1 p2 options : value) :
  normalizeLinks p1 = normalizeLinks p2 ->
  normalizeText p1 = normalizeText p2 ->
  prop p1 "subject" = prop p2 "subject" ->
  prop p1 "snippet" = prop p2 "snippet" ->
  analysis env net p1 options = analysis env net p2 options.
Proof.
  intros Hl Ht Hs Hn. unfold analysis, normalizeSnippet.
  now rewrite Hl, Ht, Hs, Hn.
Qed.

Lemma analyze_request (env : Env) (net : Network) (payload options : value) :
  truthy payload = true ->
  analyze env net (request payload options)
  = match analysis env net payload options with
    | (Returned a, sent) => ({| status := 200; json := analysis_json a |}, sent)
    | (Thrown e, sent) => (failure 500 (error_text e), sent)
    end.
Proof.
  intros Hp. unfold analyze, analyze_try.
  change (get (request payload options) "payload") with (Returned payload).
  change (get (request payload options) "options") with (Returned options).
  rewrite !bind_lift, Hp. cbn [negb]. unfold bind, ret.
  destruct (analysis env net payload options) as [[a|e] sent];
    [now rewrite app_nil_r | reflexivity].
Qed.

Lemma bind_sent {A B} (m : Eff A) (f : A -> Eff B) (call : NetCall) :
  In call (snd (bind m f)) ->
  In call (snd m) \/ exists a, fst m = Returned a /\ In call (snd (f a)).
Proof.
  unfold bind. destruct m as [[a|e] s]; [|auto].
  destruct (f a) as [r s'] eqn:E. cbn [fst snd]. intros H.
  apply in_app_or in H. destruct H as [H|H]; [auto|].
  right. exists a. rewrite E. auto.
Qed.

Lemma bind_snd {A B} (m : Eff A) (f : A -> Eff B) :
  snd (bind m f)
  = snd m ++ match fst m with Returned a => snd (f a) | Thrown _ => [] end.
Proof.
  unfold bind. destruct m as [[a|e] s]; cbn [fst snd].
  - now destruct (f a).
  - now rewrite app_nil_r.
Qed.

Lemma grammarCheck_sent_any (env : Env) (net : Network) (options text : value)
      (call : NetCall) :
  In call (snd (grammarCheck env net options text)) ->
  exists s, to_string text = Returned s /\ call = LanguageToolPost (LT_URL env) s.
Proof.
  unfold grammarCheck.
  destruct (truthy options && truthy (prop options "grammarChecker") && truthy text
            && match length_nat text with Some n => (10 <=? n)%nat | None => false end);
    [|intros []].
  intros H. apply bind_sent in H. destruct H as [H|(lt & _ & H)].
  - rewrite languageToolCheck_cases in H.
    destruct (to_string text) as [s|e]; [|destruct H].
    destruct H as [<-|[]]. eauto.
  - exfalso. destruct (truthy (prop lt "success")); [|destruct H].
    rewrite bind_lift in H. destruct (filterGrammarIssues (prop lt "data")); destruct H.
Qed.

(** The requests a run sends: at most one to each service, about the
    normalized links and the normalized text. *)
Lemma analysis_sent (env : Env) (net : Network) (payload options : value)
      (call : NetCall) :
  In call (snd (analysis env net payload options)) ->
  call = safeBrowsingCall env (normalizeLinks payload)
  \/ exists text s,
      normalizeText payload = Returned text
      /\ to_string text = Returned s
      /\ call = LanguageToolPost (LT_URL env) s.
Proof.
  unfold analysis. intros H.
  apply bind_sent in H. destruct H as [[]|(text & Ht & H)]. cbn [lift fst] in Ht.
  apply bind_sent in H. destruct H as [[]|(snippet & _ & H)].
  apply bind_sent in H. destruct H as [H|(sl & _ & H)].
  - left. destruct (linkScan_sent env net options (normalizeLinks payload)) as [E|E];
      rewrite E in H; [destruct H | now destruct H as [<-|[]]].
  - apply bind_sent in H. destruct H as [H|(g & _ & H)].
    + right. apply grammarCheck_sent_any in H. destruct H as (s & Hs & ->). eauto.
    + exfalso. rewrite bind_lift in H. destruct (foundPhrases text); destruct H.
Qed.

Lemma analyze_request_sent (env : Env) (net : Network) (payload options : value) :
  truthy payload = true ->
  snd (analyze env net (request payload options))
  = snd (analysis env net payload options).
Proof.
  intros Hp. rewrite analyze_request by assumption.
  now destruct (analysis env net payload options) as [[a|e] sent].
Qed.

(** ** The grammar check and the length of the text *)





(** C8. Normalization comes first and everything after it sees the
    truncated values only.  A text is cut to its first 30,000 characters and
    a links array to its first 50 entries; the whole run (the response and
    the requests sent to the services) is the run on the payload that holds
    the truncated value; the grammar service is asked about the truncated
    text and the threat-list service about the first 50 links; the echoed
    [textLength] is the length of the truncated text and the phrases found
    are those of the truncated text. *)
Theorem normalization_truncates_first
        (env : Env) (net : Network) (props : list (string * value)) (options : value) :
  (forall t,
      prop (Obj props) "text" = Str t ->
      normalizeText (Obj props) = Returned (Str (slice0 MAX_TEXT t))
      /\ String.length (slice0 MAX_TEXT t) = Nat.min MAX_TEXT (String.length t)
      /\ analyze env net (request (Obj props) options)
         = analyze env net
                   (request (Obj (set_prop "text" (Str (slice0 MAX_TEXT t)) props))
                            options)
      /\ (forall u x,
             In (LanguageToolPost u x) (snd (analyze env net (request (Obj props) options))) ->
             x = slice0 MAX_TEXT t)
      /\ (forall a sent,
             analysis env net (Obj props) options = (Returned a, sent) ->
             a_textLength a = Num (index_key (Nat.min MAX_TEXT (String.length t)))
             /\ foundPhrases (Str (slice0 MAX_TEXT t)) = Returned (a_foundPhrases a)))
  /\ (forall l,
         prop (Obj props) "links" = Arr l ->
         normalizeLinks (Obj props) = firstn 50 l
         /\ List.length (firstn 50 l) = Nat.min 50 (List.length l)
         /\ analyze env net (request (Obj props) options)
            = analyze env net
                      (request (Obj (set_prop "links" (Arr (firstn 50 l)) props))
                               options)
         /\ (forall api entries,
                In (SafeBrowsingPost api entries)
                   (snd (analyze env net (request (Obj props) options))) ->
                entries = map (fun u => Obj [("url", u)]) (firstn 50 l)))
  /\ N.of_nat MAX_TEXT = 30000%N.
Proof.
  split; [|split; [|apply MAX_TEXT_value]].
  - intros t Ht.
    assert (Htext : normalizeText (Obj props) = Returned (Str (slice0 MAX_TEXT t))).
    { unfold normalizeText. now rewrite Ht, or_else_Str. }
    split; [exact Htext|]. split; [apply slice0_length_min|].
    split; [|split].
    + rewrite !analyze_request by reflexivity.
      rewrite (analysis_agree env net (Obj props)
                 (Obj (set_prop "text" (Str (slice0 MAX_TEXT t)) props)));
        [reflexivity | | | |].
      * unfold normalizeLinks. now rewrite prop_set_prop.
      * rewrite Htext. unfold normalizeText.
        rewrite prop_set_prop. cbn [String.eqb Ascii.eqb Bool.eqb].
        rewrite or_else_Str. cbn [call_slice]. now rewrite slice0_slice0.
      * now rewrite prop_set_prop.
      * now rewrite prop_set_prop.
    + intros u x Hin. rewrite analyze_request_sent in Hin by reflexivity.
      apply analysis_sent in Hin.
      destruct Hin as [Hin|(text & s & Htx & Hs & Hin)]; [discriminate Hin|].
      rewrite Htext in Htx. injection Htx as <-. cbn in Hs.
      injection Hs as <-. now injection Hin as _ ->.
    + intros a sent Ha. apply analysis_Returned in Ha.
      destruct Ha as (t' & snippet & sl & g & found & s1 & s2
                      & Ht' & _ & _ & _ & Hf & _ & ->).
      rewrite Htext in Ht'. injection Ht' as <-.
      cbn [a_textLength a_foundPhrases js_length length_nat].
      rewrite slice0_length_min. split; [reflexivity | exact Hf].
  - intros l Hl.
    assert (Hlinks : normalizeLinks (Obj props) = firstn 50 l).
    { unfold normalizeLinks. now rewrite Hl. }
    split; [exact Hlinks|]. split; [apply length_firstn|]. split.
    + rewrite !analyze_request by reflexivity.
      rewrite (analysis_agree env net (Obj props)
                 (Obj (set_prop "links" (Arr (firstn 50 l)) props)));
        [reflexivity | | | |].
      * rewrite Hlinks. unfold normalizeLinks.
        rewrite prop_set_prop. cbn [String.eqb Ascii.eqb Bool.eqb].
        unfold MAX_LINKS. now rewrite firstn_firstn.
      * apply normalizeText_agree. now rewrite prop_set_prop.
      * now rewrite prop_set_prop.
      * now rewrite prop_set_prop.
    + intros api entries Hin. rewrite analyze_request_sent in Hin by reflexivity.
      apply analysis_sent in Hin.
      destruct Hin as [Hin|(text & s & _ & _ & Hin)]; [|discriminate Hin].
      unfold safeBrowsingCall in Hin. injection Hin as _ ->. now rewrite Hlinks.
Qed.

Lemma normalization_truncates_first_witness :
  prop (Obj props_big) "text" = Str long_text
  /\ prop (Obj props_big) "links" = Arr sixty_links
  /\ normalizeText (Obj props_big) = Returned (Str (slice0 MAX_TEXT long_text))
  /\ N.of_nat (String.length (slice0 MAX_TEXT long_text)) = 30000%N
  /\ List.length (normalizeLinks (Obj props_big)) = 50
  /\ analyze env_with_key net_down (request (Obj props_big) options_links)
     = analyze env_with_key net_down
               (request (Obj (set_prop "text" (Str (slice0 MAX_TEXT long_text)) props_big))
                        options_links)
  /\ analyze env_with_key net_down (request (Obj props_big) options_links)
     = analyze env_with_key net_down
               (request (Obj (set_prop "links" (Arr (firstn 50 sixty_links)) props_big))
                        options_links)
  /\ exists a,
      analysis env_with_key net_down (Obj props_big) options_links
      = (Returned a, [safeBrowsingCall env_with_key (firstn 50 sixty_links)])
      /\ a_textLength a = Num "30000".
Proof.
  destruct (normalization_truncates_first env_with_key net_down props_big options_links)
    as (Htext & Hlinks & _).
  destruct (Htext long_text eq_refl) as (Hcut & _ & Hrun & _).
  destruct (Hlinks sixty_links eq_refl) as (Hfirst & _ & Hrun' & _).
  split; [reflexivity|]. split; [reflexivity|]. split; [exact Hcut|].
  split; [vm_compute; reflexivity|].
  split; [rewrite Hfirst; reflexivity|].
  split; [exact Hrun|]. split; [exact Hrun'|].
  eexists. split; vm_compute; reflexivity.
Defined.

(** ** A links field that is not an array *)

Lemma or_else_Str_plain (v : value) (s : string) :
  or_else v (Str "") = Str s -> plain v = true.
Proof.
  unfold or_else. destruct (truthy v) eqn:E.
  - now intros ->.
  - intros _. destruct v; simpl in *; try reflexivity; now rewrite E.
Qed.

Lemma normalizeText_Str_plain (payload : value) (t : string) :
  normalizeText payload = Returned (Str t) -> plain (prop payload "text") = true.
Proof.
  unfold normalizeText. intros H. apply call_slice_Returned in H.
  destruct H as [(s & Hs & _)|(l & _ & H)]; [|discriminate H].
  now apply (or_else_Str_plain _ s).
Qed.

Lemma normalizeLinks_not_array (payload : value) :
  (forall l, prop payload "links" <> Arr l) -> normalizeLinks payload = [].
Proof.
  intros H. unfold normalizeLinks.
  destruct (prop payload "links") as [| | | | |l|]; try reflexivity.
  now destruct (H l).
Qed.

Lemma googleSafeBrowsingLookup_without_key_cases (env : Env) (net : Network)
      (urls : list value) :
  GOOGLE_KEY env = "" ->
  googleSafeBrowsingLookup env net urls = (Returned no_matches, []).
Proof. intros H. rewrite googleSafeBrowsingLookup_cases. now rewrite H. Qed.

Lemma net_twenty_issues_wellformed : services_wellformed net_twenty_issues.
Proof.
  intros call data H. destruct call; cbn in H; injection H as <-.
  - intros ms Hms. discriminate Hms.
  - eexists. vm_compute. reflexivity.
Qed.

(** C10, as the code has it.  When the payload is present and its [links] is
    absent or is not an array, the handler works on the empty list of links:
    the heuristic scorer finds nothing, the threat-list service is asked
    about no url, and the whole run is the run of the same request with
    [links: []], so the [links] field is never the cause of a failure.  The
    request is answered with status 200 whenever its text is a string (or
    counts as false) and the answers of the services can be processed, and
    only if its text is a string (or counts as false). *)
Theorem links_not_array_is_empty
        (env : Env) (net : Network) (payload options : value) :
  truthy payload = true ->
  (forall l, prop payload "links" <> Arr l) ->
  normalizeLinks payload = []
  /\ heuristicScan (normalizeLinks payload) = Returned []
  /\ (forall payload',
         truthy payload' = true ->
         prop payload' "links" = Arr [] ->
         prop payload' "text" = prop payload "text" ->
         prop payload' "subject" = prop payload "subject" ->
         prop payload' "snippet" = prop payload "snippet" ->
         analyze env net (request payload options)
         = analyze env net (request payload' options))
  /\ (forall sl sent,
         linkScan env net options (normalizeLinks payload) = (Returned sl, sent) ->
         Forall (fun f => exists m, threatFinding m = Returned f) sl
         /\ (sent = [] \/ sent = [safeBrowsingCall env []]))
  /\ (forall a sent,
         GOOGLE_KEY env = "" ->
         analysis env net payload options = (Returned a, sent) ->
         a_suspiciousLinks a = [])
  /\ (plain (prop payload "text") = true ->
      services_wellformed net ->
      status (fst (analyze env net (request payload options))) = 200)
  /\ (status (fst (analyze env net (request payload options))) = 200 ->
      plain (prop payload "text") = true).
Proof.
  intros Hp Hlinks.
  pose proof (normalizeLinks_not_array payload Hlinks) as Hnil.
  assert (Hscan : forall sl sent,
             linkScan env net options [] = (Returned sl, sent) ->
             Forall (fun f => exists m, threatFinding m = Returned f) sl
             /\ (sent = [] \/ sent = [safeBrowsingCall env []])).
  { intros sl sent H. split.
    - destruct (linkScan_Returned _ _ _ _ _ _ H)
        as [(_ & -> & _)|(_ & h & sb & th & Hh & _ & Hth & ->)]; [constructor|].
      simpl in Hh. injection Hh as <-. rewrite app_nil_r.
      now apply (threatFindings_sound sb).
    - destruct (linkScan_sent env net options []) as [E|E];
        rewrite H in E; cbn [snd] in E; auto. }
  rewrite Hnil. split; [reflexivity|]. split; [reflexivity|].
  split; [|split; [exact Hscan|split; [|split]]].
  - intros payload' Hp' Hl' Ht' Hs' Hn'.
    rewrite !analyze_request by assumption. rewrite (analysis_agree env net payload payload').
    + reflexivity.
    + rewrite Hnil. unfold normalizeLinks. now rewrite Hl'.
    + now apply normalizeText_agree.
    + now symmetry.
    + now symmetry.
  - intros a sent Hk Ha. apply analysis_Returned in Ha.
    destruct Ha as (t & snippet & sl & g & found & s1 & s2
                    & _ & _ & Hsl & _ & _ & _ & ->).
    cbn [a_suspiciousLinks]. rewrite Hnil in Hsl.
    destruct (linkScan_Returned _ _ _ _ _ _ Hsl)
      as [(_ & -> & _)|(_ & h & sb & th & Hh & Hsb & Hth & ->)]; [reflexivity|].
    simpl in Hh. injection Hh as <-.
    rewrite googleSafeBrowsingLookup_without_key_cases in Hsb by assumption.
    injection Hsb as <- _. simpl in Hth. injection Hth as <-. reflexivity.
  - intros Ht Hnet. rewrite analyze_request by assumption.
    destruct (analysis_returns env net payload options) as (a & sent & Ha).
    + split; [exact Ht | now rewrite Hnil].
    + exact Hnet.
    + now rewrite Ha.
  - rewrite analyze_request by assumption.
    destruct (analysis env net payload options) as [[a|e] sent] eqn:Ha;
      [|discriminate].
    intros _. apply analysis_Returned in Ha.
    destruct Ha as (t & _ & _ & _ & _ & _ & _ & Ht & _).
    now apply (normalizeText_Str_plain payload t).
Qed.

Lemma links_not_array_is_empty_witness :
  truthy payload_links_string = true
  /\ (forall l, prop payload_links_string "links" <> Arr l)
  /\ normalizeLinks payload_links_string = []
  /\ analyze env_with_key net_malware (request payload_links_string options_all)
     = analyze env_with_key net_malware
               (request (Obj [("text", Str "Hello there, friend."); ("links", Arr [])])
                        options_all)
  /\ status (fst (analyze env_with_key net_twenty_issues
                          (request payload_links_string options_all))) = 200.
Proof.
  assert (Hl : forall l, prop payload_links_string "links" <> Arr l)
    by (intros l; discriminate).
  split; [reflexivity|]. split; [exact Hl|].
  destruct (links_not_array_is_empty env_with_key net_malware payload_links_string
              options_all eq_refl Hl) as (Hnil & _ & Hrun & _).
  split; [exact Hnil|]. split.
  - apply Hrun; reflexivity.
  - apply (links_not_array_is_empty env_with_key net_twenty_issues payload_links_string
             options_all eq_refl Hl).
    + reflexivity.
    + apply net_twenty_issues_wellformed.
Defined.

(** C10 as stated fails: a request whose [links] is not an array is not
    always answered.  The list of links the handler works on is empty, but
    with a number as text the request gets status 500, and so it does when
    the threat-list service, asked about no url, answers with a [null] among
    its matches. *)
Lemma links_not_array_request_can_fail :
  truthy payload_numeric_text = true
  /\ prop payload_numeric_text "links" = Str "http://bank.example"
  /\ normalizeLinks payload_numeric_text = []
  /\ status (fst (analyze env_no_key net_down
                          (request payload_numeric_text options_all))) = 500
  /\ truthy payload_links_string = true
  /\ prop payload_links_string "links" = Str "http://bank.example"
  /\ normalizeLinks payload_links_string = []
  /\ status (fst (analyze env_with_key net_null_match
                          (request payload_links_string options_all))) = 500.
Proof.
  vm_compute. repeat split.
Qed.

(** * Further properties of the handler *)

(** ** The three outcomes of a request *)

Lemma analyze_cases (env : Env) (net : Network) (body : value) :
  analyze env net body
  = match get body "payload" with
    | Thrown e => (failure 500 (error_text e), [])
    | Returned payload =>
        if truthy payload
        then match analysis env net payload (prop body "options") with
             | (Returned a, sent) => ({| status := 200; json := analysis_json a |}, sent)
             | (Thrown e, sent) => (failure 500 (error_text e), sent)
             end
        else (failure 400 "Missing payload", [])
    end.
Proof.
  unfold analyze, analyze_try. rewrite bind_lift.
  destruct body; cbn [get]; try reflexivity;
    rewrite bind_lift;
    match goal with
    | |- context [truthy ?p] => destruct (truthy p); cbn [negb]; [|reflexivity]
    end;
    unfold bind, ret;
    match goal with
    | |- context [analysis ?e ?n ?p ?o] =>
        destruct (analysis e n p o) as [[a|ex] sent]; [now rewrite app_nil_r | reflexivity]
    end.
Qed.

(** X1. The handler always answers with status 200, 400 or 500.  It answers
    400 exactly when the body can be read and its [payload] is missing or
    counts as false; then the answer is [{ success: false, error: 'Missing
    payload' }] and no service is contacted.  The [success] flag of the
    answer is [true] exactly when the status is 200, and every other answer
    is [{ success: false, error }] with a message. *)
Theorem status_classifies_request (env : Env) (net : Network) (body : value) :
  (status (fst (analyze env net body)) = 400
   <-> body <> Null /\ body <> Undefined /\ truthy (prop body "payload") = false)
  /\ (status (fst (analyze env net body)) = 400 ->
      analyze env net body = (failure 400 "Missing payload", []))
  /\ (status (fst (analyze env net body)) = 200
      \/ status (fst (analyze env net body)) = 400
      \/ status (fst (analyze env net body)) = 500)
  /\ prop (json (fst (analyze env net body))) "success"
     = Bool (status (fst (analyze env net body)) =? 200)%nat
  /\ (status (fst (analyze env net body)) <> 200 ->
      exists msg,
        json (fst (analyze env net body))
        = Obj [("success", Bool false); ("error", Str msg)]).
Proof.
  rewrite analyze_cases.
  assert (Hget : (body = Null \/ body = Undefined)
                 \/ (body <> Null /\ body <> Undefined
                     /\ get body "payload" = Returned (prop body "payload"))).
  { destruct body; auto; right; repeat split; discriminate. }
  destruct Hget as [[-> | ->] | (Hn & Hu & Hg)].
  - cbn. repeat split; intros; try discriminate; eauto; intuition congruence.
  - cbn. repeat split; intros; try discriminate; eauto; intuition congruence.
  - rewrite Hg. destruct (truthy (prop body "payload")) eqn:Hp.
    + destruct (analysis env net (prop body "payload") (prop body "options"))
        as [[a|e] sent]; cbn;
        repeat split; intros; try discriminate; eauto; intuition congruence.
    + cbn. repeat split; intros; try discriminate; eauto; intuition congruence.
Qed.

Lemma heuristicLinkCheck_Returned_plain (u : value) (rs : list string) :
  heuristicLinkCheck u = Returned rs -> plain u = true.
Proof.
  unfold heuristicLinkCheck. intros H.
  destruct (or_else u (Str "")) as [| | | |s| |] eqn:E; try discriminate H.
  now apply (or_else_Str_plain u s).
Qed.

Lemma heuristicScan_Returned_plain (links : list value) (h : list Finding) :
  heuristicScan links = Returned h -> forallb plain links = true.
Proof.
  revert h. induction links as [|u links IH]; simpl; intros h H; [reflexivity|].
  destruct (heuristicLinkCheck u) as [rs|e] eqn:Hu; [|discriminate]. simpl in H.
  destruct (heuristicScan links) as [more|e]; [|discriminate].
  rewrite (heuristicLinkCheck_Returned_plain u rs Hu). simpl. now apply (IH more).
Qed.

Lemma heuristicScan_Thrown (links : list value) :
  forallb plain links = false -> exists e, heuristicScan links = Thrown e.
Proof.
  intros H. destruct (heuristicScan links) as [h|e] eqn:E; [|eauto].
  apply heuristicScan_Returned_plain in E. congruence.
Qed.

Lemma linkScan_off (env : Env) (net : Network) (options : value) (links : list value) :
  linkScanner_on options = false -> linkScan env net options links = (Returned [], []).
Proof. unfold linkScan, linkScanner_on. now intros ->. Qed.

Lemma analysis_returns_when (env : Env) (net : Network) (payload options : value) :
  plain (prop payload "text") = true ->
  (linkScanner_on options = true -> forallb plain (normalizeLinks payload) = true) ->
  services_wellformed net ->
  exists a sent, analysis env net payload options = (Returned a, sent).
Proof.
  intros Ht Hl Hnet. unfold analysis.
  destruct (normalizeText_plain payload Ht) as [t Htext].
  rewrite Htext, bind_lift.
  assert (Hs : exists snippet, normalizeSnippet payload (Str t) = Returned snippet).
  { unfold normalizeSnippet. destruct (truthy (prop payload "snippet")); simpl; eauto. }
  destruct Hs as [snippet Hs]. rewrite Hs, bind_lift.
  assert (Hsl : exists sl s1,
             linkScan env net options (normalizeLinks payload) = (Returned sl, s1)).
  { destruct (linkScanner_on options) eqn:Hon.
    - apply linkScan_returns; auto.
    - rewrite linkScan_off by assumption. eauto. }
  destruct Hsl as (sl & s1 & Hsl).
  destruct (grammarCheck_returns env net options t Hnet) as (g & s2 & Hg).
  assert (Hf : exists found, foundPhrases (Str t) = Returned found).
  { unfold foundPhrases. rewrite or_else_Str. simpl. eauto. }
  destruct Hf as [found Hf].
  eexists. eexists.
  eapply bind_intro; [exact Hsl|].
  eapply bind_intro; [exact Hg|].
  rewrite Hf, bind_lift. reflexivity.
Qed.

(** X2. Which requests are answered.  A request with a payload gets status
    200 only if its text is a string (or counts as false) and, when link
    scanning is on, each of its first 50 links is a string (or counts as
    false).  When the answers of the services can be processed, these
    conditions are also enough. *)
Theorem answered_iff_wellformed
        (env : Env) (net : Network) (payload options : value) :
  truthy payload = true ->
  (status (fst (analyze env net (request payload options))) = 200 ->
   plain (prop payload "text") = true
   /\ (linkScanner_on options = true ->
       forallb plain (normalizeLinks payload) = true))
  /\ (services_wellformed net ->
      plain (prop payload "text") = true ->
      (linkScanner_on options = true ->
       forallb plain (normalizeLinks payload) = true) ->
      status (fst (analyze env net (request payload options))) = 200).
Proof.
  intros Hp. rewrite analyze_request by assumption. split.
  - destruct (analysis env net payload options) as [[a|e] sent] eqn:Ha;
      [|discriminate].
    intros _. apply analysis_Returned in Ha.
    destruct Ha as (t & snippet & sl & g & found & s1 & s2
                    & Ht & _ & Hsl & _ & _ & _ & _).
    split; [now apply (normalizeText_Str_plain payload t)|].
    intros Hon.
    destruct (linkScan_Returned _ _ _ _ _ _ Hsl)
      as [(Hoff & _)|(_ & h & sb & th & Hh & _)]; [congruence|].
    now apply (heuristicScan_Returned_plain _ h).
  - intros Hnet Ht Hl.
    destruct (analysis_returns_when env net payload options Ht Hl Hnet)
      as (a & sent & Ha).
    now rewrite Ha.
Qed.

Lemma answered_iff_wellformed_witness :
  truthy payload_bank = true
  /\ status (fst (analyze env_with_key net_twenty_issues
                          (request payload_bank options_all))) = 200
  /\ status (fst (analyze env_with_key net_twenty_issues
                          (request payload_bad_link options_all))) <> 200.
Proof.
  split; [reflexivity|].
  destruct (answered_iff_wellformed env_with_key net_twenty_issues payload_bank
              options_all eq_refl) as [_ Hok].
  destruct (answered_iff_wellformed env_with_key net_twenty_issues payload_bad_link
              options_all eq_refl) as [Hneeds _].
  split.
  - apply Hok; [apply net_twenty_issues_wellformed | reflexivity | reflexivity].
  - intros H. destruct (Hneeds H) as [_ Hl]. specialize (Hl eq_refl). discriminate Hl.
Defined.

(** X3. With link scanning on, one link among the first 50 that is neither
    a string nor a value that counts as false (a number, [true], an array, an
    object) fails the whole request with status 500, before any service is
    contacted.  With link scanning off the links are never looked at: the
    run does not depend on them. *)
Theorem bad_link_fails_before_any_call
        (env : Env) (net : Network) (payload options : value) :
  truthy payload = true ->
  (linkScanner_on options = true ->
   forallb plain (normalizeLinks payload) = false ->
   exists msg, analyze env net (request payload options) = (failure 500 msg, []))
  /\ (linkScanner_on options = false ->
      forall payload',
        truthy payload' = true ->
        prop payload' "text" = prop payload "text" ->
        prop payload' "subject" = prop payload "subject" ->
        prop payload' "snippet" = prop payload "snippet" ->
        analyze env net (request payload options)
        = analyze env net (request payload' options)).
Proof.
  intros Hp. split.
  - intros Hon Hbad. rewrite analyze_request by assumption.
    destruct (heuristicScan_Thrown _ Hbad) as [e He].
    unfold analysis. rewrite bind_lift.
    destruct (normalizeText payload) as [text|e0]; [|eauto].
    rewrite bind_lift.
    destruct (normalizeSnippet payload text) as [snippet|e1]; [|eauto].
    unfold linkScan. unfold linkScanner_on in Hon. rewrite Hon.
    rewrite He, bind_lift. cbn. eauto.
  - intros Hoff payload' Hp' Ht Hs Hn.
    rewrite !analyze_request by assumption.
    unfold analysis, normalizeSnippet.
    rewrite !(linkScan_off env net options) by assumption.
    rewrite (normalizeText_agree payload' payload Ht), Hs, Hn. reflexivity.
Qed.

Lemma bad_link_fails_before_any_call_witness :
  truthy payload_bad_link = true
  /\ linkScanner_on options_all = true
  /\ forallb plain (normalizeLinks payload_bad_link) = false
  /\ exists msg,
      analyze env_with_key net_malware (request payload_bad_link options_all)
      = (failure 500 msg, []).
Proof.
  split; [reflexivity|]. split; [reflexivity|]. split; [reflexivity|].
  apply (bad_link_fails_before_any_call env_with_key net_malware payload_bad_link
           options_all eq_refl); reflexivity.
Defined.

(** ** The requests sent to the services *)

Lemma linkScan_sent_when (env : Env) (net : Network) (options : value)
      (links : list value) :
  snd (linkScan env net options links) = []
  \/ (snd (linkScan env net options links) = [safeBrowsingCall env links]
      /\ linkScanner_on options = true /\ GOOGLE_KEY env <> "").
Proof.
  unfold linkScan, linkScanner_on.
  destruct (truthy options && truthy (prop options "linkScanner")); [|now left].
  rewrite bind_lift. destruct (heuristicScan links); [|now left].
  rewrite googleSafeBrowsingLookup_cases.
  destruct (String.eqb_spec (GOOGLE_KEY env) "").
  - left. unfold bind at 1. rewrite bind_lift.
    destruct (threatFindings no_matches); reflexivity.
  - right. split; [|auto]. unfold bind at 1. rewrite bind_lift.
    destruct (threatFindings _); reflexivity.
Qed.

Lemma grammarCheck_sent_when (env : Env) (net : Network) (options text : value) :
  snd (grammarCheck env net options text) = []
  \/ (grammarChecker_on options = true
      /\ exists s, to_string text = Returned s
                   /\ snd (grammarCheck env net options text)
                      = [LanguageToolPost (LT_URL env) s]).
Proof.
  unfold grammarCheck, grammarChecker_on.
  destruct (truthy options && truthy (prop options "grammarChecker")); [|now left].
  cbn [andb].
  destruct (truthy text
            && match length_nat text with Some n => (10 <=? n)%nat | None => false end);
    [|now left].
  rewrite bind_snd, languageToolCheck_cases.
  destruct (to_string text) as [s|e]; cbn [fst snd].
  - right. split; [reflexivity|]. exists s. split; [reflexivity|].
    match goal with
    | |- context [truthy (prop ?lt "success")] =>
        destruct (truthy (prop lt "success"));
        [rewrite bind_lift; destruct (filterGrammarIssues (prop lt "data"))|];
        reflexivity
    end.
  - left. reflexivity.
Qed.

(** X4. A request makes at most one call to each service and never repeats
    one: what is sent is an optional threat-list request followed by an
    optional grammar request.  The threat-list request is sent only with
    link scanning on and a credential configured, and it asks about the
    normalized links (at most 50); the grammar request is sent only with
    grammar checking on, and it carries the normalized text. *)
Theorem at_most_one_call_per_service (env : Env) (net : Network) (body : value) :
  exists sb lt,
    snd (analyze env net body) = sb ++ lt
    /\ (sb = []
        \/ (sb = [safeBrowsingCall env (normalizeLinks (prop body "payload"))]
            /\ linkScanner_on (prop body "options") = true
            /\ GOOGLE_KEY env <> ""))
    /\ (lt = []
        \/ (grammarChecker_on (prop body "options") = true
            /\ exists text s,
                normalizeText (prop body "payload") = Returned text
                /\ to_string text = Returned s
                /\ lt = [LanguageToolPost (LT_URL env) s]))
    /\ List.length (normalizeLinks (prop body "payload")) <= 50.
Proof.
  assert (Hlen : List.length (normalizeLinks (prop body "payload")) <= 50).
  { unfold normalizeLinks.
    destruct (prop (prop body "payload") "links") as [| | | | |l|];
      try (cbn [List.length]; lia).
    rewrite length_firstn. unfold MAX_LINKS. lia. }
  assert (Hnone : exists sb lt : list NetCall,
             [] = sb ++ lt
             /\ (sb = []
                 \/ (sb = [safeBrowsingCall env (normalizeLinks (prop body "payload"))]
                     /\ linkScanner_on (prop body "options") = true
                     /\ GOOGLE_KEY env <> ""))
             /\ (lt = []
                 \/ (grammarChecker_on (prop body "options") = true
                     /\ exists text s,
                         normalizeText (prop body "payload") = Returned text
                         /\ to_string text = Returned s
                         /\ lt = [LanguageToolPost (LT_URL env) s]))
             /\ List.length (normalizeLinks (prop body "payload")) <= 50).
  { exists [], []. auto. }
  rewrite analyze_cases.
  destruct (get body "payload") as [payload|e] eqn:Hget; [|exact Hnone].
  assert (payload = prop body "payload") as ->
      by (destruct body; cbn [get] in Hget; try discriminate Hget;
          now injection Hget as <-).
  destruct (truthy (prop body "payload")); [|exact Hnone].
  set (payload := prop body "payload") in *. set (options := prop body "options") in *.
  assert (Hsent : snd (match analysis env net payload options with
                       | (Returned a, sent) =>
                           ({| status := 200; json := analysis_json a |}, sent)
                       | (Thrown e, sent) => (failure 500 (error_text e), sent)
                       end)
                  = snd (analysis env net payload options))
    by (destruct (analysis env net payload options) as [[a|e] sent]; reflexivity).
  rewrite Hsent. clear Hsent. unfold analysis.
  rewrite bind_lift.
  destruct (normalizeText payload) as [text|e] eqn:Htext; [|exact Hnone].
  rewrite bind_lift.
  destruct (normalizeSnippet payload text) as [snippet|e]; [|exact Hnone].
  rewrite bind_snd.
  exists (snd (linkScan env net options (normalizeLinks payload))).
  eexists. split; [reflexivity|]. split; [|split; [|exact Hlen]].
  - destruct (linkScan_sent_when env net options (normalizeLinks payload)) as [E|E]; auto.
  - destruct (fst (linkScan env net options (normalizeLinks payload))); [|now left].
    rewrite bind_snd.
    assert (Hrest : forall g,
               snd (found <~ lift (foundPhrases text) ;;
                    ret {| a_subject := or_else (prop payload "subject") (Str "");
                           a_snippet := snippet;
                           a_textLength := js_length text;
                           a_suspiciousLinks := finalSuspicious a;
                           a_grammar := g;
                           a_foundPhrases := found;
                           a_overall := overall a found g |}) = []).
    { intros g. rewrite bind_lift. now destruct (foundPhrases text). }
    destruct (grammarCheck_sent_when env net options text) as [E|(Hon & s & Hs & E)].
    + left. rewrite E. destruct (fst (grammarCheck env net options text));
        [apply Hrest | reflexivity].
    + right. split; [exact Hon|]. exists text, s. repeat split; try assumption.
      rewrite E. destruct (fst (grammarCheck env net options text));
        [now rewrite Hrest | reflexivity].
Qed.

(** ** Threat matches *)

Lemma truthy_prop (v : value) (k : string) :
  truthy (prop v k) = true -> truthy v = true.
Proof. destruct v; simpl; try discriminate; reflexivity. Qed.

Lemma entryUrl_cases (m : value) :
  entryUrl m
  = if truthy (prop (prop m "threat") "url") then prop (prop m "threat") "url"
    else if truthy (prop (prop m "threatEntry") "url")
         then prop (prop m "threatEntry") "url"
         else Null.
Proof.
  unfold entryUrl.
  destruct (truthy (prop (prop m "threat") "url")) eqn:E1.
  - pose proof (truthy_prop _ _ E1) as E2. pose proof (truthy_prop _ _ E2) as E3.
    now rewrite E3, E2.
  - rewrite !andb_false_r.
    destruct (truthy (prop (prop m "threatEntry") "url")) eqn:E4.
    + pose proof (truthy_prop _ _ E4) as E5. pose proof (truthy_prop _ _ E5) as E6.
      now rewrite E6, E5.
    + now rewrite !andb_false_r.
Qed.

Lemma threatFinding_resolves (m : value) (f : Finding) :
  threatFinding m = Returned f -> resolves m f.
Proof.
  unfold threatFinding. intros H.
  destruct (get m "threatType") as [tt|e] eqn:Hg; [|discriminate]. cbn [obind] in H.
  assert (tt = prop m "threatType") as ->
      by (destruct m; cbn [get] in Hg; try discriminate Hg; now injection Hg as <-).
  destruct (to_string (or_else (prop m "threatType") (Str "THREAT"))) as [label|e] eqn:Hl;
    [|discriminate].
  cbn [obind] in H. injection H as <-. unfold resolves. cbn [url reasons].
  rewrite entryUrl_cases.
  destruct (truthy (prop (prop m "threat") "url")) eqn:E1;
    [|destruct (truthy (prop (prop m "threatEntry") "url")) eqn:E2].
  - unfold or_else. rewrite E1. repeat split; try congruence; eauto.
  - unfold or_else. rewrite E2. repeat split; try congruence; eauto.
  - unfold or_else. cbn. repeat split; try congruence; eauto.
Qed.

Lemma mapM_Forall2 {A B} (f : A -> Outcome B) (l : list A) (r : list B) :
  mapM f l = Returned r -> Forall2 (fun x y => f x = Returned y) l r.
Proof.
  revert r. induction l as [|x l IH]; simpl; intros r H.
  - injection H as <-. constructor.
  - destruct (f x) as [y|e] eqn:Hx; [|discriminate]. simpl in H.
    destruct (mapM f l) as [ys|e]; [|discriminate]. simpl in H.
    injection H as <-. constructor; [assumption | now apply IH].
Qed.

(** X5. A successful threat-list answer gives one finding per match, in
    order: no match is dropped.  The url of a finding is [threat.url] if that
    counts as true, else [threatEntry.url] if that counts as true, else the
    marker [(unknown)], so it never counts as false; its single reason is
    [Google Safe Browsing match: ] followed by the threat type, or by
    [THREAT] when the type is missing. *)
Theorem threat_matches_never_dropped (sb : value) (ms : list value)
        (findings : list Finding) :
  truthy (prop sb "success") = true ->
  prop sb "matches" = Arr ms ->
  threatFindings sb = Returned findings ->
  List.length findings = List.length ms /\ Forall2 resolves ms findings.
Proof.
  intros Hs Hm H. unfold threatFindings in H. rewrite Hs, Hm in H.
  assert (H' : mapM threatFinding ms = Returned findings)
    by (destruct ms; [exact H | exact H]).
  apply mapM_Forall2 in H'. split.
  - symmetry. exact (Forall2_length H').
  - eapply Forall2_impl; [|exact H']. intros m f. apply threatFinding_resolves.
Qed.

Lemma threat_matches_never_dropped_witness :
  exists findings,
    threatFindings answer_two = Returned findings
    /\ map url findings = [Str "http://a.example"; Str "(unknown)"]
    /\ List.length findings = List.length matches_two
    /\ Forall2 resolves matches_two findings.
Proof.
  eexists. split; [vm_compute; reflexivity|]. split; [reflexivity|].
  apply (threat_matches_never_dropped answer_two matches_two); reflexivity.
Defined.

Lemma mapM_Thrown {A B} (f : A -> Outcome B) (l : list A) (x : A) (e : Exn) :
  In x l -> f x = Thrown e -> exists e', mapM f l = Thrown e'.
Proof.
  induction l as [|y l IH]; simpl; intros Hin Hx; [destruct Hin|].
  destruct (f y) as [b|e0] eqn:Hy; cbn [obind]; [|eauto].
  destruct Hin as [->|Hin]; [congruence|].
  destruct (IH Hin Hx) as [e' ->]. cbn [obind]. eauto.
Qed.

(** X6. A [null] among the matches of the threat-list answer fails the whole
    request with status 500: the url of a match is read under a guard for a
    missing match, its threat type is not. *)
Theorem null_threat_match_fails_request
        (env : Env) (net : Network) (payload options data : value) (ms : list value) :
  truthy payload = true ->
  linkScanner_on options = true ->
  GOOGLE_KEY env <> "" ->
  net (safeBrowsingCall env (normalizeLinks payload)) = Resolved data ->
  prop data "matches" = Arr ms ->
  In Null ms ->
  (exists e, threatFindings (Obj [("success", Bool true); ("matches", Arr ms)]) = Thrown e)
  /\ status (fst (analyze env net (request payload options))) = 500.
Proof.
  intros Hp Hon Hkey Hnet Hms Hin.
  assert (Hthrow : exists e, threatFindings (Obj [("success", Bool true); ("matches", Arr ms)])
                             = Thrown e).
  { rewrite threatFindings_success. destruct ms as [|m ms]; [destruct Hin|].
    apply (mapM_Thrown threatFinding (m :: ms) Null
                       (TypeError "Cannot read properties of null or undefined: threatType"));
      [assumption | reflexivity]. }
  split; [exact Hthrow|].
  rewrite analyze_request by assumption. unfold analysis. rewrite bind_lift.
  destruct (normalizeText payload) as [text|e0]; [|reflexivity].
  rewrite bind_lift.
  destruct (normalizeSnippet payload text) as [snippet|e1]; [|reflexivity].
  unfold linkScan. unfold linkScanner_on in Hon. rewrite Hon, bind_lift.
  destruct (heuristicScan (normalizeLinks payload)) as [h|e2]; [|reflexivity].
  rewrite googleSafeBrowsingLookup_cases, Hnet.
  destruct (String.eqb_spec (GOOGLE_KEY env) ""); [contradiction|].
  assert (Hd : truthy data && truthy (prop data "matches") = true).
  { rewrite Hms. destruct data; try discriminate Hms. reflexivity. }
  rewrite Hd, Hms. destruct Hthrow as [e He].
  unfold bind at 2. rewrite bind_lift, He. reflexivity.
Qed.

Lemma null_threat_match_fails_request_witness :
  status (fst (analyze env_with_key net_null_match (request payload_bank options_all)))
  = 500.
Proof.
  eapply (proj2 (null_threat_match_fails_request env_with_key net_null_match
                   payload_bank options_all _ _ eq_refl eq_refl _ eq_refl eq_refl _)).
  Unshelve.
  - discriminate.
  - right. left. reflexivity.
Defined.

(** ** The echo of the payload *)

Lemma slice0_slice0_le (m n : nat) (s : string) :
  m <= n -> slice0 m (slice0 n s) = slice0 m s.
Proof.
  revert n s. induction m as [|m IH]; intros [|n] [|c s] H; simpl;
    try reflexivity; try lia.
  rewrite IH by lia. reflexivity.
Qed.

Lemma slice0_empty (n : nat) : slice0 n "" = "".
Proof. now destruct n. Qed.

Lemma SNIPPET_within_MAX_TEXT : SNIPPET_LENGTH <= MAX_TEXT.
Proof.
  assert (E : MAX_TEXT = N.to_nat 30000)
    by (rewrite <- MAX_TEXT_value; symmetry; apply Nat2N.id).
  rewrite E. apply Nat.leb_le. vm_compute. reflexivity.
Qed.

(** X7. The echoed snippet is the snippet of the payload when that counts
    as true; otherwise it is derived: the first 200 characters of the text,
    which is the empty string when the payload has no text.  The echoed
    subject is the subject of the payload, or the empty string. *)
Theorem snippet_given_or_derived
        (env : Env) (net : Network) (payload options : value)
        (a : Analysis) (sent : list NetCall) :
  analysis env net payload options = (Returned a, sent) ->
  (truthy (prop payload "snippet") = true -> a_snippet a = prop payload "snippet")
  /\ (truthy (prop payload "snippet") = false ->
      exists t,
        a_snippet a = Str t
        /\ String.length t <= 200
        /\ (forall s, prop payload "text" = Str s -> t = slice0 200 s)
        /\ (truthy (prop payload "text") = false -> t = ""))
  /\ (truthy (prop payload "subject") = true -> a_subject a = prop payload "subject")
  /\ (truthy (prop payload "subject") = false -> a_subject a = Str "").
Proof.
  intros Ha. apply analysis_Returned in Ha.
  destruct Ha as (t & snippet & sl & g & found & s1 & s2
                  & Ht & Hs & _ & _ & _ & _ & ->).
  cbn [a_snippet a_subject]. unfold normalizeSnippet in Hs.
  split; [|split; [|split]].
  - intros Hon. rewrite Hon in Hs. now injection Hs as <-.
  - intros Hoff. rewrite Hoff in Hs. cbn [call_slice] in Hs. injection Hs as <-.
    exists (slice0 SNIPPET_LENGTH t). split; [reflexivity|].
    split; [apply slice0_length|]. unfold normalizeText in Ht. split.
    + intros s Hsrc. rewrite Hsrc, or_else_Str in Ht. cbn [call_slice] in Ht.
      injection Ht as <-. apply slice0_slice0_le, SNIPPET_within_MAX_TEXT.
    + intros Hfalse. unfold or_else in Ht. rewrite Hfalse in Ht.
      cbn [call_slice] in Ht. injection Ht as <-.
      now rewrite !slice0_empty.
  - intros Hon. unfold or_else. now rewrite Hon.
  - intros Hoff. unfold or_else. now rewrite Hoff.
Qed.

Lemma snippet_given_or_derived_witness :
  exists a sent,
    analysis env_no_key net_down payload_long_text options_all = (Returned a, sent)
    /\ a_snippet a = Str (replicate 200 "x"%char)
    /\ a_subject a = Str "Offer".
Proof.
  eexists. eexists. split; [vm_compute; reflexivity|].
  destruct (snippet_given_or_derived env_no_key net_down payload_long_text options_all
              _ _ eq_refl) as (_ & Hder & Hsub & _).
  split; [|apply Hsub; reflexivity].
  destruct (Hder eq_refl) as (t & Ht & _ & Hcut & _).
  transitivity (Str t); [exact Ht|].
  rewrite (Hcut _ eq_refl). reflexivity.
Defined.

(** ** The order of the final list *)

Lemma map_set_keys (m : UrlMap) (k : value) (v : list string) :
  map fst (map_set m k v)
  = if existsb (fun y => same_value_zero y k) (map fst m)
    then map fst m else map fst m ++ [k].
Proof.
  induction m as [|[k' v'] m IH]; simpl; [reflexivity|].
  destruct (same_value_zero k' k); simpl; [reflexivity|].
  rewrite IH. now destruct (existsb _ (map fst m)).
Qed.

Lemma fold_addFinding_keys (l : list Finding) (m : UrlMap) :
  map fst (fold_left addFinding l m)
  = map fst m ++ first_urls (map fst m) (map url l).
Proof.
  revert m. induction l as [|f l IH]; intros m; simpl; [now rewrite app_nil_r|].
  rewrite IH. unfold addFinding. rewrite map_set_keys.
  destruct (existsb (fun y => same_value_zero y (url f)) (map fst m)); [reflexivity|].
  now rewrite <- app_assoc.
Qed.

Lemma first_urls_Subseq (seen l : list value) : Subseq (first_urls seen l) l.
Proof.
  revert seen. induction l as [|x l IH]; intros seen; simpl; [constructor|].
  destruct (existsb _ seen); constructor; apply IH.
Qed.

Lemma Subseq_length {A} (l d : list A) : Subseq l d -> List.length l <= List.length d.
Proof. induction 1; simpl; lia. Qed.

(** X8. The final list is ordered by first appearance: its urls are the
    urls of the findings (threat-list findings first, then heuristic ones)
    with every later repetition of a url left out.  So each entry comes from
    a finding, the order of the findings is kept, and the list is never
    longer than the list of findings. *)
Theorem finalSuspicious_in_order_of_first_appearance (sl : list Finding) :
  map link_url (finalSuspicious sl) = first_urls [] (map url sl)
  /\ Subseq (map link_url (finalSuspicious sl)) (map url sl)
  /\ List.length (finalSuspicious sl) <= List.length sl.
Proof.
  assert (E : map link_url (finalSuspicious sl) = first_urls [] (map url sl)).
  { unfold finalSuspicious, groupByUrl. rewrite map_map. cbn [link_url].
    exact (fold_addFinding_keys sl []). }
  split; [exact E|]. split.
  - rewrite E. apply first_urls_Subseq.
  - rewrite <- (length_map link_url), E, <- (length_map url sl).
    apply Subseq_length, first_urls_Subseq.
Qed.

(** ** What the grammar filter lets through *)

Lemma Subseq_trans {A} (a b c : list A) : Subseq a b -> Subseq b c -> Subseq a c.
Proof.
  intros Hab Hbc. revert a Hab.
  induction Hbc as [|x b c _ IH|x b c _ IH]; intros a Hab.
  - exact Hab.
  - constructor. now apply IH.
  - inversion Hab; subst; constructor; now apply IH.
Qed.

Lemma filterM_Subseq {A} (p : A -> Outcome bool) (l r : list A) :
  filterM p l = Returned r -> Subseq r l.
Proof.
  revert r. induction l as [|x l IH]; simpl; intros r H.
  - injection H as <-. constructor.
  - destruct (p x) as [b|e]; [|discriminate]. simpl in H.
    destruct (filterM p l) as [r'|e]; [|discriminate]. simpl in H.
    destruct b; injection H as <-; constructor; now apply IH.
Qed.

Lemma filterChain_Subseq (ps : list (value -> Outcome bool)) (l r : list value) :
  filterChain ps l = Returned r -> Subseq r l.
Proof.
  revert l. induction ps as [|p ps IH]; simpl; intros l H.
  - injection H as <-. apply Subseq_refl.
  - destruct (filterM p l) as [l'|e] eqn:Hp; [|discriminate]. simpl in H.
    apply (Subseq_trans r l' l); [now apply IH | now apply (filterM_Subseq p)].
Qed.

Lemma is_error_true (i : value) :
  is_error i = Returned true -> prop i "severity" = Str "error".
Proof.
  unfold is_error. destruct (get i "severity") as [sev|e] eqn:Hg; [|discriminate].
  assert (sev = prop i "severity") as ->
      by (destruct i; cbn [get] in Hg; try discriminate Hg; now injection Hg as <-).
  cbn [obind]. destruct (prop i "severity"); try discriminate.
  intros H. injection H as H. apply String.eqb_eq in H. now subst.
Qed.

Lemma long_field_true (f : string) (n : nat) (i : value) :
  long_field f n i = Returned true ->
  exists s, prop i f = Str s /\ n < String.length (trim s).
Proof.
  unfold long_field. destruct (get i f) as [x|e] eqn:Hg; [|discriminate].
  assert (x = prop i f) as ->
      by (destruct i; cbn [get] in Hg; try discriminate Hg; now injection Hg as <-).
  cbn [obind]. destruct (truthy (prop i f)); [|discriminate].
  destruct (prop i f); try discriminate. cbn [call_trim obind].
  intros H. injection H as H. apply Nat.ltb_lt in H. eauto.
Qed.

Lemma not_rule_true (rule : string) (i : value) :
  not_rule rule i = Returned true ->
  exists r, to_string (prop i "ruleId") = Returned r /\ r <> rule.
Proof.
  unfold not_rule. destruct (get i "ruleId") as [x|e] eqn:Hg; [|discriminate].
  assert (x = prop i "ruleId") as ->
      by (destruct i; cbn [get] in Hg; try discriminate Hg; now injection Hg as <-).
  cbn [obind]. destruct (to_string (prop i "ruleId")) as [r|e]; [|discriminate].
  cbn [obind]. intros H. injection H as H. apply negb_true_iff in H.
  exists r. split; [reflexivity|]. intros ->. now rewrite String.eqb_refl in H.
Qed.

(** X9. Whatever the grammar service answered, when the filter returns,
    its result is the raw list with some issues left out, in the same order,
    and every issue it lets through is an error whose trimmed message has
    more than 5 characters, whose trimmed context has more than 10, and whose
    rule is none of the six suppressed rules. *)
Theorem filterGrammarIssues_keeps_only (data : value) (matches : list value) :
  filterGrammarIssues data = Returned matches ->
  Forall survivor matches
  /\ (matches = [] \/ exists raw, prop data "matches" = Arr raw /\ Subseq matches raw).
Proof.
  unfold filterGrammarIssues.
  destruct (negb (truthy data) || negb (truthy (prop data "matches"))).
  - intros H. injection H as <-. split; [constructor | now left].
  - destruct (prop data "matches") as [| | | | |raw|] eqn:Hm; try discriminate.
    cbn [as_array obind]. intros H. split.
    + destruct (filterChain_Returned _ _ _ H) as [Hall _].
      assert (Hp : forall p, In p grammarPasses ->
                     forall i, In i matches -> p i = Returned true).
      { intros p Hp i Hi. specialize (Hall p Hp). rewrite Forall_forall in Hall. auto. }
      apply Forall_forall. intros i Hi. unfold survivor.
      split; [|split; [|split]].
      * apply is_error_true, Hp; [simpl; tauto | assumption].
      * apply (long_field_true "message" 5), Hp; [simpl; tauto | assumption].
      * apply (long_field_true "context" 10), Hp; [simpl; tauto | assumption].
      * destruct (not_rule_true "MORFOLOGIK_RULE_EN_US" i) as (r & Hr & H1);
          [apply Hp; [simpl; tauto | assumption]|].
        exists r. split; [exact Hr|].
        assert (Hother : forall rule, In rule suppressedRules -> r <> rule).
        { intros rule Hrule. destruct (not_rule_true rule i) as (r' & Hr' & Hne).
          - apply Hp; [|assumption]. simpl in Hrule. simpl.
            intuition (subst; tauto).
          - congruence. }
        intros Hin. now apply (Hother r Hin).
    + right. exists raw. split; [reflexivity|]. now apply (filterChain_Subseq grammarPasses).
Qed.

Lemma filterGrammarIssues_keeps_only_witness :
  Forall survivor [issue_example]
  /\ ([issue_example] = []
      \/ exists raw, prop (Obj [("matches", Arr raw_example)]) "matches" = Arr raw
                     /\ Subseq [issue_example] raw).
Proof.
  apply (filterGrammarIssues_keeps_only (Obj [("matches", Arr raw_example)])).
  vm_compute. reflexivity.
Defined.

(** ** When the verdict is a warning *)

Lemma overall_warning (sl : list Finding) (found : list string) (g : value) :
  overall sl found g = warning ->
  sl = [] /\ found = []
  /\ truthy g && truthy (prop g "matches")
     && match length_nat (prop g "matches") with
        | Some n => (15 <? n)%nat
        | None => false
        end = true.
Proof.
  unfold overall. destruct sl as [|f sl]; [|discriminate].
  destruct found as [|p found]; [|discriminate].
  cbn [List.length]. rewrite Nat.ltb_irrefl. cbn [orb].
  destruct (truthy g && truthy (prop g "matches")
            && match length_nat (prop g "matches") with
               | Some n => (15 <? n)%nat
               | None => false
               end); [auto | discriminate].
Qed.

(** X10. The verdict [warning] has one cause only: grammar checking is on,
    the text has at least 10 characters, the grammar service answered, the
    filter kept more than 15 of its issues, and there is neither a
    suspicious link nor a phishing phrase.  In particular a failed grammar
    call never gives a warning. *)
Theorem warning_needs_successful_grammar_check
        (env : Env) (net : Network) (payload options : value)
        (a : Analysis) (sent : list NetCall) :
  analysis env net payload options = (Returned a, sent) ->
  a_overall a = warning ->
  a_suspiciousLinks a = []
  /\ a_foundPhrases a = []
  /\ grammarChecker_on options = true
  /\ exists t data matches,
      normalizeText payload = Returned (Str t)
      /\ 10 <= String.length t
      /\ net (LanguageToolPost (LT_URL env) t) = Resolved data
      /\ filterGrammarIssues data = Returned matches
      /\ 15 < List.length matches
      /\ a_grammar a = rewrap data matches.
Proof.
  intros Ha Hw. apply analysis_Returned in Ha.
  destruct Ha as (t & snippet & sl & g & found & s1 & s2
                  & Ht & _ & _ & Hg & _ & _ & ->).
  cbn [a_overall a_suspiciousLinks a_foundPhrases a_grammar] in *.
  apply overall_warning in Hw. destruct Hw as (-> & -> & Hw).
  split; [reflexivity|]. split; [reflexivity|].
  rewrite grammarCheck_Str in Hg.
  destruct (grammarChecker_on options) eqn:Hon; cbn [andb] in Hg;
    [|injection Hg as <- _; discriminate Hw].
  destruct (10 <=? String.length t)%nat eqn:Hlen;
    [|injection Hg as <- _; discriminate Hw].
  apply Nat.leb_le in Hlen. split; [reflexivity|].
  injection Hg as Hg _. unfold grammarResult in Hg.
  destruct (net (LanguageToolPost (LT_URL env) t)) as [data|err] eqn:Hnet.
  - destruct (filterGrammarIssues data) as [ms|e] eqn:Hms; [|discriminate Hg].
    cbn [obind] in Hg. injection Hg as <-.
    exists t, data, ms. repeat split; try assumption.
    unfold rewrap, prop in Hw. rewrite assoc_set_prop_same in Hw.
    cbn [truthy andb length_nat] in Hw. now apply Nat.ltb_lt.
  - injection Hg as <-. discriminate Hw.
Qed.

Lemma warning_needs_successful_grammar_check_witness :
  exists a sent,
    analysis env_with_key net_twenty_issues payload_plain options_all
    = (Returned a, sent)
    /\ a_overall a = warning
    /\ a_suspiciousLinks a = []
    /\ a_foundPhrases a = []
    /\ grammarChecker_on options_all = true
    /\ exists t data matches,
        normalizeText payload_plain = Returned (Str t)
        /\ 10 <= String.length t
        /\ net_twenty_issues (LanguageToolPost (LT_URL env_with_key) t) = Resolved data
        /\ filterGrammarIssues data = Returned matches
        /\ 15 < List.length matches
        /\ a_grammar a = rewrap data matches.
Proof.
  eexists. eexists. split; [vm_compute; reflexivity|].
  split; [reflexivity|].
  eapply (warning_needs_successful_grammar_check env_with_key net_twenty_issues
            payload_plain options_all).
  - vm_compute. reflexivity.
  - reflexivity.
Defined.

(** ** The credential *)

Lemma trimStart_blank (s : string) :
  forallb is_space (list_ascii_of_string s) = true -> trimStart s = "".
Proof.
  induction s as [|c s IH]; simpl; [reflexivity|].
  intros H. apply andb_prop in H. destruct H as [Hc Hs]. rewrite Hc. now apply IH.
Qed.

Lemma trimStart_spaces (s : string) :
  forallb is_space (list_ascii_of_string (trimStart s)) = true ->
  forallb is_space (list_ascii_of_string s) = true.
Proof.
  induction s as [|c s IH]; simpl; [reflexivity|].
  destruct (is_space c) eqn:Hc; simpl.
  - exact IH.
  - rewrite Hc. discriminate.
Qed.

Lemma trimEnd_empty (s : string) :
  trimEnd s = "" -> forallb is_space (list_ascii_of_string s) = true.
Proof.
  induction s as [|c s IH]; simpl; [reflexivity|].
  destruct (trimEnd s); [|discriminate].
  destruct (is_space c); [|discriminate]. intros _. now apply IH.
Qed.

Lemma trim_empty_iff (s : string) :
  trim s = "" <-> forallb is_space (list_ascii_of_string s) = true.
Proof.
  unfold trim. split.
  - intros H. now apply trimStart_spaces, trimEnd_empty.
  - intros H. now rewrite (trimStart_blank s H).
Qed.

(** X11. A credential counts as configured exactly when the environment
    variable is set and holds a character that is not white space.  A blank
    credential is no credential: the client answers with no match and sends
    nothing.  With a credential, the client sends exactly one request, to
    the address completed with the trimmed credential. *)
Theorem credential_is_trimmed (env : Env) (net : Network) (urls : list value) :
  (GOOGLE_KEY env = ""
   <-> GOOGLE_SAFE_BROWSING_API_KEY env = None
       \/ exists s, GOOGLE_SAFE_BROWSING_API_KEY env = Some s
                    /\ forallb is_space (list_ascii_of_string s) = true)
  /\ (GOOGLE_KEY env = "" ->
      googleSafeBrowsingLookup env net urls = (Returned no_matches, []))
  /\ (GOOGLE_KEY env <> "" ->
      snd (googleSafeBrowsingLookup env net urls)
      = [SafeBrowsingPost
           ("https://safebrowsing.googleapis.com/v4/threatMatches:find?key="
              ++ GOOGLE_KEY env)
           (map (fun u => Obj [("url", u)]) urls)]
      /\ forall s, GOOGLE_SAFE_BROWSING_API_KEY env = Some s -> GOOGLE_KEY env = trim s).
Proof.
  split; [|split].
  - unfold GOOGLE_KEY, env_or.
    destruct (GOOGLE_SAFE_BROWSING_API_KEY env) as [s|]; [|split; auto].
    split.
    + intros H. right. exists s. split; [reflexivity|].
      destruct (String.eqb s "") eqn:E.
      * apply String.eqb_eq in E. now subst s.
      * now apply trim_empty_iff.
    + intros [H|(s' & Hs & Hb)]; [discriminate|]. injection Hs as <-.
      destruct (String.eqb s "") eqn:E; [reflexivity|].
      now apply trim_empty_iff.
  - intros H. rewrite googleSafeBrowsingLookup_cases. now rewrite H.
  - intros H. split.
    + rewrite googleSafeBrowsingLookup_cases.
      destruct (String.eqb_spec (GOOGLE_KEY env) ""); [contradiction|reflexivity].
    + intros s Hs. unfold GOOGLE_KEY, env_or. rewrite Hs.
      destruct (String.eqb s "") eqn:E; [|reflexivity].
      apply String.eqb_eq in E. now subst s.
Qed.

Lemma credential_is_trimmed_witness :
  GOOGLE_KEY env_blank_key = ""
  /\ googleSafeBrowsingLookup env_blank_key net_malware [Str "http://bank.example"]
     = (Returned no_matches, []).
Proof.
  destruct (credential_is_trimmed env_blank_key net_malware [Str "http://bank.example"])
    as (Hiff & Hnone & _).
  assert (Hk : GOOGLE_KEY env_blank_key = "").
  { apply Hiff. right. exists "   ". split; reflexivity. }
  split; [exact Hk | exact (Hnone Hk)].
Defined.

(** ** The heuristic scan *)

(** X12. The heuristic scan gives at most one finding per link, in the
    order of the links: a link gets a finding exactly when the scorer has a
    reason against it, and the finding carries the reasons of the scorer; a
    link without reason leaves no trace. *)
Theorem heuristicScan_keeps_order (links : list value) (h : list Finding) :
  heuristicScan links = Returned h ->
  Subseq (map url h) links
  /\ Forall (fun f => heuristicLinkCheck (url f) = Returned (reasons f)
                      /\ reasons f <> []) h
  /\ forall u, In u links ->
               (In u (map url h)
                <-> exists r rs, heuristicLinkCheck u = Returned (r :: rs)).
Proof.
  revert h. induction links as [|u links IH]; simpl; intros h H.
  - injection H as <-. split; [constructor|]. split; [constructor|]. intros u [].
  - destruct (heuristicLinkCheck u) as [rs|e] eqn:Hu; [|discriminate]. simpl in H.
    destruct (heuristicScan links) as [more|e]; [|discriminate]. simpl in H.
    destruct (IH more eq_refl) as (Hsub & Hall & Hiff).
    destruct rs as [|r rs]; injection H as <-.
    + split; [now constructor|]. split; [exact Hall|].
      intros v [<-|Hv].
      * split.
        -- intros Hin. apply in_map_iff in Hin. destruct Hin as (f & Hf & Hin).
           rewrite Forall_forall in Hall. destruct (Hall f Hin) as [Hc Hne].
           rewrite Hf, Hu in Hc. injection Hc as Hc. now destruct Hne.
        -- intros (r & rs & Hr). congruence.
      * now apply Hiff.
    + cbn [map url]. split; [now constructor|]. split.
      * constructor; [|exact Hall]. cbn. split; [exact Hu | discriminate].
      * intros v [<-|Hv].
        -- split; [eauto | intros _; now left].
        -- rewrite <- (Hiff v Hv). split; [intros [<-|Hin]|]; auto.
           ++ apply Hiff; [assumption|]. eauto.
           ++ intros Hin. now right.
Qed.

Lemma heuristicScan_keeps_order_witness :
  exists h,
    heuristicScan [Str "http://plain.example"; Str "http://bank.example/login"; Null]
    = Returned h
    /\ map url h = [Str "http://bank.example/login"]
    /\ Subseq (map url h)
              [Str "http://plain.example"; Str "http://bank.example/login"; Null].
Proof.
  eexists. split; [vm_compute; reflexivity|]. split; [reflexivity|].
  eapply (proj1 (heuristicScan_keeps_order _ _ _)).
  Unshelve. vm_compute. reflexivity.
Defined.

(** * Vertical redundancy check: properties *)

Import VRC.

Lemma store_length {A} (l : list A) (j : nat) (x : A) :
  List.length (store l j x) = List.length l.
Proof.
  unfold store. destruct (j <? List.length l)%nat eqn:E; [|reflexivity].
  apply Nat.ltb_lt in E.
  rewrite length_app, length_firstn. cbn [List.length]. rewrite length_skipn. lia.
Qed.

Lemma store_split {A} (l1 l2 : list A) (y x : A) :
  store (l1 ++ y :: l2) (List.length l1) x = l1 ++ x :: l2.
Proof.
  unfold store.
  assert (E : (List.length l1 <? List.length (l1 ++ y :: l2))%nat = true)
    by (apply Nat.ltb_lt; rewrite length_app; cbn [List.length]; lia).
  rewrite E. f_equal.
  - rewrite firstn_app, Nat.sub_diag, firstn_all. cbn [firstn]. apply app_nil_r.
  - f_equal. change (y :: l2) with ([y] ++ l2). rewrite app_assoc.
    replace (S (List.length l1)) with (List.length (l1 ++ [y]))
      by (rewrite length_app; cbn [List.length]; lia).
    rewrite skipn_app, skipn_all, Nat.sub_diag. reflexivity.
Qed.

Lemma store_at {A} (l : list A) (j : nat) (x d : A) :
  j < List.length l ->
  exists l1 l2 y, l = l1 ++ y :: l2 /\ List.length l1 = j
                  /\ store l j x = l1 ++ x :: l2.
Proof.
  intros H. destruct (nth_split l d H) as (l1 & l2 & Hl & Hj).
  remember (nth j l d) as y eqn:Ey. clear Ey. subst l j.
  exists l1, l2, y. repeat split. apply store_split.
Qed.

Lemma nth_store_same {A} (l : list A) (j : nat) (x d : A) :
  j < List.length l -> nth j (store l j x) d = x.
Proof.
  intros H. destruct (store_at l j x d H) as (l1 & l2 & y & Hl & Hj & Hs).
  rewrite Hs, app_nth2, Hj, Nat.sub_diag by lia. reflexivity.
Qed.

Lemma nth_store_other {A} (l : list A) (i j : nat) (x d : A) :
  i <> j -> nth i (store l j x) d = nth i l d.
Proof.
  intros Hij. destruct (Nat.lt_ge_cases j (List.length l)) as [H|H].
  - destruct (store_at l j x d H) as (l1 & l2 & y & Hl & Hj & Hs).
    rewrite Hs, Hl. destruct (Nat.lt_ge_cases i j).
    + rewrite !app_nth1 by lia. reflexivity.
    + rewrite !app_nth2 by lia.
      destruct (i - List.length l1) as [|k] eqn:Ek; [lia | reflexivity].
  - unfold store. apply Nat.ltb_ge in H. now rewrite H.
Qed.

Lemma ones_app (a b : list ascii) : ones (a ++ b) = ones a + ones b.
Proof. unfold ones. now rewrite filter_app, length_app. Qed.

Lemma firstn_succ {A} (l : list A) (n : nat) (d : A) :
  n < List.length l -> firstn (S n) l = firstn n l ++ [nth n l d].
Proof.
  revert n. induction l as [|x l IH]; intros n H; simpl in H; [lia|].
  destruct n as [|n]; [reflexivity|].
  cbn [firstn nth app]. f_equal. apply IH. lia.
Qed.

(** The counting loop counts the ones among the first [n] characters. *)
Lemma count_ones_ones (row : list ascii) (n : nat) :
  n <= List.length row -> count_ones row n = Z.of_nat (ones (firstn n row)).
Proof.
  unfold count_ones. induction n as [|n IH]; intros H; [reflexivity|].
  rewrite seq_S, fold_left_app, IH by lia. cbn [fold_left Nat.add].
  rewrite (firstn_succ row n NUL) by lia. rewrite ones_app.
  assert (E1 : ones [nth n row NUL]
               = if Ascii.eqb (nth n row NUL) "1" then 1 else 0)
    by (unfold ones; cbn [filter]; now destruct (Ascii.eqb (nth n row NUL) "1")).
  rewrite E1. destruct (Ascii.eqb (nth n row NUL) "1"); lia.
Qed.

Lemma strncpy_chars_block (src : list ascii) (n : nat) :
  n <= List.length src -> Forall (fun c => c <> NUL) (firstn n src) ->
  strncpy_chars src n = firstn n src.
Proof.
  revert src. induction n as [|n IH]; intros src Hlen Hall; [now destruct src|].
  destruct src as [|c src]; [simpl in Hlen; lia|].
  cbn [firstn] in Hall. inversion Hall as [|? ? Hc Hrest]; subst.
  cbn [strncpy_chars firstn]. apply Ascii.eqb_neq in Hc. rewrite Hc.
  f_equal. apply IH; [simpl in Hlen; lia | assumption].
Qed.

Lemma calculate_row_block (d p : list ascii) (evenParity : Z) :
  block d -> room p ->
  calculate_row d p evenParity
  = firstn 8 d ++ [parity_bit (Z.of_nat (ones (firstn 8 d))) evenParity; NUL].
Proof.
  intros [Hd Hnul] Hp. unfold calculate_row.
  rewrite count_ones_ones by lia.
  generalize (parity_bit (Z.of_nat (ones (firstn 8 d))) evenParity). intros bit.
  unfold strncpy. rewrite strncpy_chars_block by (assumption || lia).
  do 10 (destruct p as [|? p]; [discriminate Hp|]).
  destruct p; [|discriminate Hp].
  do 9 (destruct d as [|? d]; [discriminate Hd|]).
  destruct d; [|discriminate Hd].
  reflexivity.
Qed.

Lemma rem2_even (n : nat) : Z.eqb (Z.rem (Z.of_nat n) 2) 0 = Nat.even n.
Proof.
  destruct (Nat.even n) eqn:E.
  - apply Nat.even_spec in E. destruct E as [k ->]. apply Z.eqb_eq.
    rewrite Nat2Z.inj_mul, Z.mul_comm. now apply Z.rem_mul.
  - apply Z.eqb_neq. intros H.
    assert (Ho : Nat.odd n = true) by (unfold Nat.odd; now rewrite E).
    apply Nat.odd_spec in Ho. destruct Ho as [k ->].
    rewrite Z.rem_mod_nonneg in H by lia.
    rewrite Nat2Z.inj_add, Nat2Z.inj_mul, Z.add_comm, Z.mul_comm in H.
    rewrite Z.mod_add in H by lia. discriminate H.
Qed.

(** Whether a row passes depends on the evenness of its ones only. *)
Lemma row_fails_even (row : list ascii) (evenParity : Z) :
  9 <= List.length row ->
  row_fails row evenParity
  = if Z.eqb evenParity 0 then Nat.even (ones (firstn 9 row))
    else negb (Nat.even (ones (firstn 9 row))).
Proof.
  intros H. unfold row_fails. rewrite count_ones_ones by assumption.
  rewrite rem2_even.
  destruct (Z.eqb evenParity 0); destruct (Nat.even _); reflexivity.
Qed.

Lemma ones_parity_bit (k : nat) (evenParity : Z) (d8 : list ascii) :
  ones d8 = k ->
  Nat.even (ones (d8 ++ [parity_bit (Z.of_nat k) evenParity]))
  = negb (Z.eqb evenParity 0).
Proof.
  intros <-. rewrite ones_app. unfold parity_bit. rewrite rem2_even.
  rewrite Nat.even_add.
  destruct (Z.eqb evenParity 0); destruct (Nat.even (ones d8)); reflexivity.
Qed.

Lemma calculated_row_even (d p : list ascii) (evenParity : Z) :
  block d -> room p ->
  9 <= List.length (calculate_row d p evenParity)
  /\ Nat.even (ones (firstn 9 (calculate_row d p evenParity)))
     = negb (Z.eqb evenParity 0).
Proof.
  intros Hd Hp. rewrite (calculate_row_block d p evenParity Hd Hp).
  destruct Hd as [Hd _].
  assert (H8 : List.length (firstn 8 d) = 8) by (rewrite length_firstn; lia).
  split.
  - rewrite length_app, H8. cbn [List.length]. lia.
  - change [parity_bit (Z.of_nat (ones (firstn 8 d))) evenParity; NUL]
      with ([parity_bit (Z.of_nat (ones (firstn 8 d))) evenParity] ++ [NUL]).
    rewrite app_assoc.
    replace 9 with (List.length (firstn 8 d
                                   ++ [parity_bit (Z.of_nat (ones (firstn 8 d))) evenParity])
                    + 0)
      by (rewrite length_app, H8; reflexivity).
    rewrite firstn_app_2. cbn [firstn]. rewrite app_nil_r.
    now apply ones_parity_bit.
Qed.

(** The rows of [calculateVRC]: those below [n] are recomputed from the
    rows of [data] and [parityData] of the same index, the others stay. *)
Lemma calculateVRC_rows (data parityData : list (list ascii)) (evenParity : Z) (n : nat) :
  n <= List.length parityData ->
  let out := fold_left
               (fun pd i =>
                  store pd i (calculate_row (nth i data []) (nth i pd []) evenParity))
               (seq 0 n) parityData in
  List.length out = List.length parityData
  /\ forall i,
      nth i out []
      = if (i <? n)%nat
        then calculate_row (nth i data []) (nth i parityData []) evenParity
        else nth i parityData [].
Proof.
  induction n as [|n IH]; intros Hn; cbn zeta.
  - split; [reflexivity | intros i; reflexivity].
  - rewrite seq_S, fold_left_app. cbn [fold_left Nat.add].
    destruct (IH ltac:(lia)) as [Hlen Hnth]. cbn zeta in Hlen, Hnth.
    set (acc := fold_left _ (seq 0 n) parityData) in *.
    split; [now rewrite store_length|].
    intros i. destruct (Nat.eq_dec i n) as [->|Hne].
    + rewrite nth_store_same by lia.
      rewrite Hnth, Nat.ltb_irrefl.
      assert (E : (n <? S n)%nat = true) by (apply Nat.ltb_lt; lia).
      now rewrite E.
    + rewrite nth_store_other by assumption. rewrite Hnth.
      destruct (i <? n)%nat eqn:E1; destruct (i <? S n)%nat eqn:E2; try reflexivity;
        [apply Nat.ltb_lt in E1; apply Nat.ltb_ge in E2
        |apply Nat.ltb_ge in E1; apply Nat.ltb_lt in E2]; lia.
Qed.

Lemma verify_loop_spec (range : list nat) (parityData : list (list ascii))
      (evenParity : Z) :
  verify_loop range parityData evenParity
  = if existsb (fun i => row_fails (nth i parityData []) evenParity) range
    then 0%Z else 1%Z.
Proof.
  induction range as [|i range IH]; [reflexivity|]. cbn [verify_loop existsb].
  destruct (row_fails (nth i parityData []) evenParity); [reflexivity | exact IH].
Qed.

Lemma nth_firstn_Forall {A} (P : A -> Prop) (l : list A) (n i : nat) (d : A) :
  Forall P (firstn n l) -> i < n -> n <= List.length l -> P (nth i l d).
Proof.
  intros H Hi Hn. rewrite Forall_forall in H. apply H.
  rewrite <- (firstn_skipn n l) at 1.
  rewrite app_nth1 by (rewrite length_firstn; lia).
  apply nth_In. rewrite length_firstn. lia.
Qed.

(** X13. [calculateVRC] rewrites the first [rows] rows of [parityData] and
    leaves the others as they are.  Each rewritten row is the 8 characters
    of the block, then the parity bit, then the terminator, and the number
    of ones among its first 9 characters is even under even parity and odd
    under odd parity. *)
Theorem calculateVRC_appends_parity
        (data parityData : list (list ascii)) (rows evenParity : Z) :
  Z.to_nat rows <= List.length data ->
  Z.to_nat rows <= List.length parityData ->
  Forall block (firstn (Z.to_nat rows) data) ->
  Forall room (firstn (Z.to_nat rows) parityData) ->
  List.length (calculateVRC data rows parityData evenParity) = List.length parityData
  /\ (forall i,
         i < Z.to_nat rows ->
         nth i (calculateVRC data rows parityData evenParity) []
         = firstn 8 (nth i data [])
           ++ [parity_bit (Z.of_nat (ones (firstn 8 (nth i data [])))) evenParity; NUL]
         /\ Nat.even (ones (firstn 9 (nth i (calculateVRC data rows parityData evenParity) [])))
            = negb (Z.eqb evenParity 0))
  /\ (forall i,
         Z.to_nat rows <= i ->
         nth i (calculateVRC data rows parityData evenParity) [] = nth i parityData []).
Proof.
  intros Hd Hp Hblocks Hrooms. unfold calculateVRC.
  destruct (calculateVRC_rows data parityData evenParity (Z.to_nat rows) Hp)
    as [Hlen Hnth].
  cbn zeta in Hlen, Hnth. split; [exact Hlen|]. split.
  - intros i Hi. rewrite Hnth.
    assert (E : (i <? Z.to_nat rows)%nat = true) by now apply Nat.ltb_lt.
    rewrite E.
    assert (Hb : block (nth i data []))
      by (apply (nth_firstn_Forall block data (Z.to_nat rows)); assumption).
    assert (Hr : room (nth i parityData []))
      by (apply (nth_firstn_Forall room parityData (Z.to_nat rows)); assumption).
    split; [now apply calculate_row_block|].
    now apply calculated_row_even.
  - intros i Hi. rewrite Hnth.
    assert (E : (i <? Z.to_nat rows)%nat = false) by now apply Nat.ltb_ge.
    now rewrite E.
Qed.

Lemma calculateVRC_appends_parity_witness :
  map string_of_list_ascii
      (map (firstn 9) (calculateVRC main_data 4 main_parityData 1))
  = ["110011011"; "101010100"; "111100000"; "000011110"]%string
  /\ List.length (calculateVRC main_data 4 main_parityData 1) = 4.
Proof.
  split; [vm_compute; reflexivity|].
  refine (proj1 (calculateVRC_appends_parity main_data main_parityData 4 1 _ _ _ _)).
  - vm_compute. lia.
  - vm_compute. lia.
  - repeat constructor; discriminate.
  - repeat constructor.
Defined.




Lemma ones_store (l : list ascii) (j : nat) (x : ascii) :
  j < List.length l ->
  ones (store l j x) + ones [nth j l NUL] = ones l + ones [x].
Proof.
  intros H. destruct (store_at l j x NUL H) as (l1 & l2 & y & Hl & Hj & Hs).
  rewrite Hs, Hl. rewrite app_nth2, Hj, Nat.sub_diag by lia. cbn [nth].
  change (l1 ++ x :: l2) with (l1 ++ [x] ++ l2).
  change (l1 ++ y :: l2) with (l1 ++ [y] ++ l2).
  rewrite !ones_app. lia.
Qed.

Lemma firstn_store {A} (l : list A) (j n : nat) (x d : A) :
  j < n -> n <= List.length l ->
  firstn n (store l j x) = store (firstn n l) j x
  /\ nth j (firstn n l) d = nth j l d.
Proof.
  intros Hj Hn.
  destruct (store_at l j x d ltac:(lia)) as (l1 & l2 & y & Hl & Hlen & Hs).
  rewrite Hs, Hl. rewrite !firstn_app, Hlen.
  replace (n - j) with (S (n - j - 1)) by lia. cbn [firstn].
  rewrite firstn_all2 by lia. split.
  - rewrite <- Hlen at 3. now rewrite store_split.
  - rewrite !app_nth2 by lia. rewrite Hlen, Nat.sub_diag. reflexivity.
Qed.

Lemma ones_flip (c : ascii) : ones [flip c] + ones [c] = 1.
Proof.
  unfold flip, ones. cbn [filter].
  destruct (Ascii.eqb c "1") eqn:E; [reflexivity|].
  cbn [filter List.length].
  change (Ascii.eqb "1" "1") with true. reflexivity.
Qed.

(** Inverting one of the first nine characters of a row changes the
    evenness of its number of ones. *)
Lemma flip_changes_evenness (row : list ascii) (j : nat) :
  9 <= List.length row -> j < 9 ->
  Nat.even (ones (firstn 9 (store row j (flip (nth j row NUL)))))
  = negb (Nat.even (ones (firstn 9 row))).
Proof.
  intros Hlen Hj.
  destruct (firstn_store row j 9 (flip (nth j row NUL)) NUL Hj Hlen) as [-> Hnth].
  assert (H9 : j < List.length (firstn 9 row)) by (rewrite length_firstn; lia).
  pose proof (ones_store (firstn 9 row) j (flip (nth j row NUL)) H9) as Hs.
  rewrite Hnth in Hs. pose proof (ones_flip (nth j row NUL)) as Hf.
  assert (Hcases : ones (store (firstn 9 row) j (flip (nth j row NUL)))
                   = S (ones (firstn 9 row))
                   \/ S (ones (store (firstn 9 row) j (flip (nth j row NUL))))
                      = ones (firstn 9 row)) by lia.
  destruct Hcases as [-> | <-]; rewrite Nat.even_succ, <- Nat.negb_even;
    [reflexivity | now rewrite Bool.negb_involutive].
Qed.

Lemma row_fails_flip (row : list ascii) (j : nat) (evenParity : Z) :
  9 <= List.length row -> j < 9 ->
  row_fails (store row j (flip (nth j row NUL))) evenParity
  = negb (row_fails row evenParity).
Proof.
  intros Hlen Hj.
  rewrite !row_fails_even by (rewrite ?store_length; assumption).
  rewrite flip_changes_evenness by assumption.
  destruct (Z.eqb evenParity 0); [reflexivity | now rewrite Bool.negb_involutive].
Qed.

Lemma verify_loop_ext (range : list nat) (pd1 pd2 : list (list ascii))
      (evenParity : Z) :
  (forall i, row_fails (nth i pd1 []) evenParity
             = row_fails (nth i pd2 []) evenParity) ->
  verify_loop range pd1 evenParity = verify_loop range pd2 evenParity.
Proof.
  intros H. induction range as [|i range IH]; [reflexivity|].
  cbn [verify_loop]. now rewrite H, IH.
Qed.

(** X15. One inverted character among the first nine of a checked row is
    always noticed: if [verifyVRC] accepted the rows, it refuses them
    after the change. *)
Theorem verifyVRC_detects_one_flip
        (parityData : list (list ascii)) (rows evenParity : Z) (i j : nat) :
  verifyVRC parityData rows evenParity = 1%Z ->
  i < Z.to_nat rows ->
  9 <= List.length (nth i parityData []) ->
  j < 9 ->
  verifyVRC (store parityData i
                   (store (nth i parityData []) j
                          (flip (nth j (nth i parityData []) NUL))))
            rows evenParity = 0%Z.
Proof.
  intros Hok Hi Hlen Hj. unfold verifyVRC in *. rewrite verify_loop_spec in *.
  assert (Hin : i < List.length parityData).
  { destruct (Nat.lt_ge_cases i (List.length parityData)) as [H|H]; [exact H|].
    rewrite nth_overflow in Hlen by assumption. simpl in Hlen. lia. }
  assert (Hpass : row_fails (nth i parityData []) evenParity = false).
  { destruct (row_fails (nth i parityData []) evenParity) eqn:E; [|reflexivity].
    assert (Ex : existsb (fun i => row_fails (nth i parityData []) evenParity)
                         (seq 0 (Z.to_nat rows)) = true)
      by (apply existsb_exists; exists i; split; [apply in_seq; lia | exact E]).
    rewrite Ex in Hok. discriminate Hok. }
  match goal with
  | |- (if ?e then _ else _) = _ => assert (Ex : e = true)
  end.
  { apply existsb_exists. exists i. split; [apply in_seq; lia|].
    rewrite nth_store_same by assumption.
    rewrite row_fails_flip by assumption. now rewrite Hpass. }
  now rewrite Ex.
Qed.

Lemma verifyVRC_detects_one_flip_witness :
  map string_of_list_ascii
      (map (firstn 9)
           (store (calculateVRC main_data 4 main_parityData 1) 2
                  (store (nth 2 (calculateVRC main_data 4 main_parityData 1) []) 3
                         (flip (nth 3 (nth 2 (calculateVRC main_data 4 main_parityData 1) [])
                                    NUL)))))
  = ["110011011"; "101010100"; "111000000"; "000011110"]%string
  /\ verifyVRC (store (calculateVRC main_data 4 main_parityData 1) 2
                      (store (nth 2 (calculateVRC main_data 4 main_parityData 1) []) 3
                             (flip (nth 3 (nth 2 (calculateVRC main_data 4 main_parityData 1) [])
                                        NUL))))
               4 1 = 0%Z.
Proof.
  split; [vm_compute; reflexivity|].
  apply (verifyVRC_detects_one_flip (calculateVRC main_data 4 main_parityData 1) 4 1 2 3).
  - vm_compute. reflexivity.
  - vm_compute. lia.
  - vm_compute. lia.
  - lia.
Defined.

(** X16. Two inverted characters at different places among the first nine
    of one row are never noticed: [verifyVRC] answers as it did before the
    change, whatever the rows and the parity. *)
Theorem verifyVRC_misses_two_flips
        (parityData : list (list ascii)) (rows evenParity : Z) (i j1 j2 : nat) :
  9 <= List.length (nth i parityData []) ->
  j1 < 9 -> j2 < 9 -> j1 <> j2 ->
  verifyVRC (store parityData i
                   (store (store (nth i parityData []) j1
                                 (flip (nth j1 (nth i parityData []) NUL)))
                          j2 (flip (nth j2 (nth i parityData []) NUL))))
            rows evenParity
  = verifyVRC parityData rows evenParity.
Proof.
  intros Hlen H1 H2 Hne. unfold verifyVRC. apply verify_loop_ext. intros k.
  assert (Hin : i < List.length parityData).
  { destruct (Nat.lt_ge_cases i (List.length parityData)) as [H|H]; [exact H|].
    rewrite nth_overflow in Hlen by assumption. simpl in Hlen. lia. }
  destruct (Nat.eq_dec k i) as [->|Hk].
  - rewrite nth_store_same by assumption.
    set (row := nth i parityData []) in *.
    set (row1 := store row j1 (flip (nth j1 row NUL))).
    assert (E : nth j2 row NUL = nth j2 row1 NUL)
      by (unfold row1; rewrite nth_store_other by congruence; reflexivity).
    rewrite E. rewrite row_fails_flip
      by (unfold row1; rewrite ?store_length; assumption).
    unfold row1. rewrite row_fails_flip by assumption.
    apply Bool.negb_involutive.
  - now rewrite nth_store_other by assumption.
Qed.

Lemma verifyVRC_misses_two_flips_witness :
  map string_of_list_ascii
      (map (firstn 9)
           (store (calculateVRC main_data 4 main_parityData 1) 0
                  (store (store (nth 0 (calculateVRC main_data 4 main_parityData 1) []) 0
                                (flip (nth 0 (nth 0 (calculateVRC main_data 4 main_parityData 1) [])
                                           NUL)))
                         8 (flip (nth 8 (nth 0 (calculateVRC main_data 4 main_parityData 1) [])
                                      NUL)))))
  = ["010011010"; "101010100"; "111100000"; "000011110"]%string
  /\ verifyVRC (store (calculateVRC main_data 4 main_parityData 1) 0
                      (store (store (nth 0 (calculateVRC main_data 4 main_parityData 1) []) 0
                                    (flip (nth 0 (nth 0 (calculateVRC main_data 4 main_parityData 1) [])
                                               NUL)))
                             8 (flip (nth 8 (nth 0 (calculateVRC main_data 4 main_parityData 1) [])
                                          NUL))))
               4 1
    = verifyVRC (calculateVRC main_data 4 main_parityData 1) 4 1.
Proof.
  split; [vm_compute; reflexivity|].
  apply (verifyVRC_misses_two_flips (calculateVRC main_data 4 main_parityData 1) 4 1 0 0 8).
  - vm_compute. lia.
  - lia.
  - lia.
  - discriminate.
Defined.
